(** * Snuba: the expression model, the rule based translator and the
      query processors

    A shallow embedding of
      - snuba/clickhouse/translator/rulesbased.py        ([RulesBased])
      - snuba/datasets/plans/translator/mapping_rules.py ([MappingRules])
      - snuba/query/processors/uuid_column_processor.py  ([UUIDColumnProcessor])
      - snuba/datasets/storages/processors/replaced_groups.py
                                                         ([ReplacedGroups])
      - snuba/request.py                                 ([Request])
      - snuba/clusters/cluster.py                        ([Clusters])
    together with the parts of the expression model, of the matcher, of the
    conditions and of the Query container they rely on.  The first part of
    the file holds the definitions, the second part their properties. *)

From Stdlib Require Import ZArith Lia List Bool.
From stdpp Require Import base strings gmap list.
Import ListNotations.

Local Open Scope string_scope.
Local Open Scope list_scope.
Set Warnings "-register-all".

(** ** Expressions (snuba.query.expressions) *)

(** Modelled from the spec: the scalar carried by a [Literal] (section 3). *)
Inductive LiteralValue : Type :=
| VNone
| VBool (b : bool)
| VInt (z : Z)
| VStr (s : string)
| VDateTime (t : Z).

(** Modelled from the spec: the node classes of snuba.query.expressions, which
    is not in the sources: the seven classes that rulesbased.py imports, with
    the fields of section 3 under the names the sources read them by.  The
    classes are frozen dataclasses: two nodes compare equal ([==]) when their
    fields do, and they are the same object ([is]) when they were built by the
    same constructor call.  The parameter [Id] is the object identity:
    [Expression nat] is a tree of allocated objects, [Expression unit] a tree
    up to [==]. *)
Inductive Expression (Id : Type) : Type :=
| Column (oid : Id) (alias : option string) (table_name : option string)
         (column_name : string)
| Literal (oid : Id) (alias : option string) (value : LiteralValue)
| Argument (oid : Id) (alias : option string) (name : string)
| FunctionCall (oid : Id) (alias : option string) (function_name : string)
               (parameters : list (Expression Id))
| CurriedFunctionCall (oid : Id) (alias : option string)
                      (internal_function : Expression Id)
                      (parameters : list (Expression Id))
| SubscriptableReference (oid : Id) (alias : option string)
                         (column : Expression Id) (key : Expression Id)
| Lambda (oid : Id) (alias : option string) (parameters : list string)
         (transformation : Expression Id).

Arguments Column {Id}.
Arguments Literal {Id}.
Arguments Argument {Id}.
Arguments FunctionCall {Id}.
Arguments CurriedFunctionCall {Id}.
Arguments SubscriptableReference {Id}.
Arguments Lambda {Id}.

(** The node kinds, one per [translate_*] method and per rule list. *)
Inductive Kind : Type :=
| KColumn | KLiteral | KArgument | KFunctionCall
| KCurriedFunctionCall | KSubscriptableReference | KLambda.

Definition kind {Id} (e : Expression Id) : Kind :=
  match e with
  | Column _ _ _ _ => KColumn
  | Literal _ _ _ => KLiteral
  | Argument _ _ _ => KArgument
  | FunctionCall _ _ _ _ => KFunctionCall
  | CurriedFunctionCall _ _ _ _ => KCurriedFunctionCall
  | SubscriptableReference _ _ _ _ => KSubscriptableReference
  | Lambda _ _ _ _ => KLambda
  end.

Definition oid_of {Id} (e : Expression Id) : Id :=
  match e with
  | Column i _ _ _ | Literal i _ _ | Argument i _ _ | FunctionCall i _ _ _
  | CurriedFunctionCall i _ _ _ | SubscriptableReference i _ _ _
  | Lambda i _ _ _ => i
  end.

Definition isinstance {Id} (e : Expression Id) (k : Kind) : bool :=
  match kind e, k with
  | KColumn, KColumn | KLiteral, KLiteral | KArgument, KArgument
  | KFunctionCall, KFunctionCall
  | KCurriedFunctionCall, KCurriedFunctionCall
  | KSubscriptableReference, KSubscriptableReference
  | KLambda, KLambda => true
  | _, _ => false
  end.

(** [erase e] forgets the identities: [a == b] in Python is
    [erase a = erase b]. *)
Fixpoint erase {Id} (e : Expression Id) : Expression unit :=
  match e with
  | Column _ a t c => Column tt a t c
  | Literal _ a v => Literal tt a v
  | Argument _ a n => Argument tt a n
  | FunctionCall _ a f ps => FunctionCall tt a f (List.map erase ps)
  | CurriedFunctionCall _ a f ps =>
      CurriedFunctionCall tt a (erase f) (List.map erase ps)
  | SubscriptableReference _ a c k =>
      SubscriptableReference tt a (erase c) (erase k)
  | Lambda _ a ps b => Lambda tt a ps (erase b)
  end.

(** Pre-order iteration over a tree ([Expression.__iter__]): the node, then
    its children from left to right. *)
Fixpoint iter_expression {Id} (e : Expression Id) : list (Expression Id) :=
  e :: match e with
       | Column _ _ _ _ | Literal _ _ _ | Argument _ _ _ => []
       | FunctionCall _ _ _ ps => List.concat (List.map iter_expression ps)
       | CurriedFunctionCall _ _ f ps =>
           iter_expression f ++ List.concat (List.map iter_expression ps)
       | SubscriptableReference _ _ c k =>
           iter_expression c ++ iter_expression k
       | Lambda _ _ _ b => iter_expression b
       end.

(** The identities of all the objects of a tree. *)
Definition oids {Id} (e : Expression Id) : list Id :=
  List.map oid_of (iter_expression e).

(** Number of nested [translate_*] calls needed to go through a tree. *)
Fixpoint height {Id} (e : Expression Id) : nat :=
  match e with
  | Column _ _ _ _ | Literal _ _ _ | Argument _ _ _ => 1
  | FunctionCall _ _ _ ps => S (list_max (List.map height ps))
  | CurriedFunctionCall _ _ f ps =>
      S (Nat.max (height f) (list_max (List.map height ps)))
  | SubscriptableReference _ _ c k => S (Nat.max (height c) (height k))
  | Lambda _ _ _ b => S (height b)
  end.

(** The typing of the fields declared by the dataclasses: the inner function
    of a curried call is a [FunctionCall], a subscriptable reference holds a
    [Column] and a [Literal]. *)
Fixpoint well_formed {Id} (e : Expression Id) : bool :=
  match e with
  | Column _ _ _ _ | Literal _ _ _ | Argument _ _ _ => true
  | FunctionCall _ _ _ ps => forallb well_formed ps
  | CurriedFunctionCall _ _ f ps =>
      isinstance f KFunctionCall && well_formed f && forallb well_formed ps
  | SubscriptableReference _ _ c k =>
      isinstance c KColumn && isinstance k KLiteral
  | Lambda _ _ _ b => well_formed b
  end.

(** ** The rule based translator (snuba/clickhouse/translator/rulesbased.py) *)

Module RulesBased.

(** The exceptions a translation can end with.  [OutOfFuel] is not a Python
    exception: it marks a run cut short by the recursion bound of the model. *)
Inductive Exception : Type :=
| ValueError_CannotMap      (* raise ValueError(f"Cannot map expression {exp}") *)
| AssertionError            (* a failed [assert isinstance(...)] *)
| AttributeError            (* a field read on an object that lacks it *)
| OutOfFuel.

Inductive Outcome (A : Type) : Type :=
| Ok (a : A) (next : nat)
| Raise (e : Exception).
Arguments Ok {A}.
Arguments Raise {A}.

(** Computations that build objects: the state is the next free identity. *)
Definition M (A : Type) : Type := nat -> Outcome A.

Definition ret {A} (a : A) : M A := fun s => Ok a s.
Definition raise {A} (e : Exception) : M A := fun _ => Raise e.
Definition bind {A B} (m : M A) (k : A -> M B) : M B :=
  fun s => match m s with
           | Ok a s' => k a s'
           | Raise e => Raise e
           end.
(** A constructor call: the new object gets the next free identity. *)
Definition new_object : M nat := fun s => Ok s (S s).

Declare Scope translation_scope.
Delimit Scope translation_scope with translation.
Notation "x <- c1 ;; c2" := (bind c1 (fun x => c2))
  (at level 100, c1 at next level, right associativity) : translation_scope.
Local Open Scope translation_scope.

Definition mapM {A B} (f : A -> M B) : list A -> M (list B) :=
  fix go (l : list A) : M (list B) :=
    match l with
    | [] => ret []
    | x :: l' => y <- f x ;; ys <- go l' ;; ret (y :: ys)
    end.

Definition assert (b : bool) : M unit :=
  if b then ret tt else raise AssertionError.

Abbreviation Expr := (Expression nat).

(** [copy.deepcopy]: every node of the tree is rebuilt as a new object. *)
Fixpoint deepcopy (e : Expr) : M Expr :=
  match e with
  | Column _ a t c => i <- new_object ;; ret (Column i a t c)
  | Literal _ a v => i <- new_object ;; ret (Literal i a v)
  | Argument _ a n => i <- new_object ;; ret (Argument i a n)
  | FunctionCall _ a f ps =>
      i <- new_object ;; ps' <- mapM deepcopy ps ;;
      ret (FunctionCall i a f ps')
  | CurriedFunctionCall _ a f ps =>
      i <- new_object ;; f' <- deepcopy f ;; ps' <- mapM deepcopy ps ;;
      ret (CurriedFunctionCall i a f' ps')
  | SubscriptableReference _ a c k =>
      i <- new_object ;; c' <- deepcopy c ;; k' <- deepcopy k ;;
      ret (SubscriptableReference i a c' k')
  | Lambda _ a ps b =>
      i <- new_object ;; b' <- deepcopy b ;; ret (Lambda i a ps b')
  end.

(** The translator interface seen by a rule (SnubaClickhouseTranslator, an
    ExpressionVisitor): one method per node kind. *)
Record SnubaClickhouseTranslator : Type := {
  translate_column : Expr -> M Expr;
  translate_literal : Expr -> M Expr;
  translate_function_call : Expr -> M Expr;
  translate_curried_function_call : Expr -> M Expr;
  translate_subscriptable_reference : Expr -> M Expr;
  translate_lambda : Expr -> M Expr;
  translate_argument : Expr -> M Expr
}.

(** The method of the visitor that handles nodes of kind [k]. *)
Definition translate_kind (k : Kind) (t : SnubaClickhouseTranslator)
  : Expr -> M Expr :=
  match k with
  | KColumn => translate_column t
  | KLiteral => translate_literal t
  | KArgument => translate_argument t
  | KFunctionCall => translate_function_call t
  | KCurriedFunctionCall => translate_curried_function_call t
  | KSubscriptableReference => translate_subscriptable_reference t
  | KLambda => translate_lambda t
  end.

(** Modelled from the spec: [translate_expression], which the translator
    inherits from a class that is not in the sources: the double dispatch
    [exp.accept(self)], which calls the method of the kind of [exp]. *)
Definition translate_expression (t : SnubaClickhouseTranslator) (exp : Expr)
  : M Expr :=
  translate_kind (kind exp) t exp.

(** ExpressionMapper.attempt_map(expression, children_translator): [None]
    when the rule does not apply. *)
Definition ExpressionMapper : Type :=
  Expr -> SnubaClickhouseTranslator -> M (option Expr).

Record TranslationRules : Type := {
  columns : list ExpressionMapper;
  literals : list ExpressionMapper;
  functions : list ExpressionMapper;
  curried_functions : list ExpressionMapper;
  subscriptables : list ExpressionMapper;
  lambdas : list ExpressionMapper;
  arguments : list ExpressionMapper
}.

(** The rule list of a kind. *)
Definition rules_of (k : Kind) (r : TranslationRules) : list ExpressionMapper :=
  match k with
  | KColumn => columns r
  | KLiteral => literals r
  | KArgument => arguments r
  | KFunctionCall => functions r
  | KCurriedFunctionCall => curried_functions r
  | KSubscriptableReference => subscriptables r
  | KLambda => lambdas r
  end.

(** TranslationRules(): every field defaults to the empty list. *)
Definition no_rules : TranslationRules :=
  {| columns := []; literals := []; functions := []; curried_functions := [];
     subscriptables := []; lambdas := []; arguments := [] |}.

Definition concat (self spec : TranslationRules) : TranslationRules :=
  {| columns := columns self ++ columns spec;
     literals := literals self ++ literals spec;
     functions := functions self ++ functions spec;
     curried_functions := curried_functions self ++ curried_functions spec;
     subscriptables := subscriptables self ++ subscriptables spec;
     lambdas := lambdas self ++ lambdas spec;
     arguments := arguments self ++ arguments spec |}.

(** *** The default rules *)

Definition DefaultColumnMapper : ExpressionMapper :=
  fun expression children_translator =>
    e <- deepcopy expression ;; ret (Some e).

Definition DefaultLiteralMapper : ExpressionMapper :=
  fun expression children_translator =>
    e <- deepcopy expression ;; ret (Some e).

Definition DefaultArgumentMapper : ExpressionMapper :=
  fun expression children_translator =>
    e <- deepcopy expression ;; ret (Some e).

Definition DefaultFunctionMapper : ExpressionMapper :=
  fun expression children_translator =>
    match expression with
    | FunctionCall _ alias function_name parameters =>
        ps <- mapM (translate_expression children_translator) parameters ;;
        i <- new_object ;;
        ret (Some (FunctionCall i alias function_name ps))
    | _ => ret None
    end.

Definition DefaultCurriedFunctionMapper : ExpressionMapper :=
  fun expression children_translator =>
    match expression with
    | CurriedFunctionCall _ alias internal_function parameters =>
        f <- translate_function_call children_translator internal_function ;;
        ps <- mapM (translate_expression children_translator) parameters ;;
        i <- new_object ;;
        ret (Some (CurriedFunctionCall i alias f ps))
    | _ => ret None
    end.

(** The two rules below read fields of their argument without testing its
    class first: on a node of another class the read raises AttributeError. *)
Definition DefaultSubscriptableMapper : ExpressionMapper :=
  fun expression children_translator =>
    match expression with
    | SubscriptableReference _ alias col key =>
        column <- translate_column children_translator col ;;
        _ <- assert (isinstance column KColumn) ;;
        key' <- translate_literal children_translator key ;;
        _ <- assert (isinstance key' KLiteral) ;;
        i <- new_object ;;
        ret (Some (SubscriptableReference i alias column key'))
    | _ => raise AttributeError
    end.

Definition DefaultLambdaMapper : ExpressionMapper :=
  fun expression children_translator =>
    match expression with
    | Lambda _ alias parameters transformation =>
        b <- translate_expression children_translator transformation ;;
        i <- new_object ;;
        ret (Some (Lambda i alias parameters b))
    | _ => raise AttributeError
    end.

Definition default_rules : TranslationRules :=
  {| columns := [DefaultColumnMapper];
     literals := [DefaultLiteralMapper];
     functions := [DefaultFunctionMapper];
     curried_functions := [DefaultCurriedFunctionMapper];
     subscriptables := [DefaultSubscriptableMapper];
     lambdas := [DefaultLambdaMapper];
     arguments := [DefaultArgumentMapper] |}.

(** *** SnubaClickhouseRulesTranslator *)

(** The loop of [__map_expression]: the result of the first rule that does
    not return [None]. *)
Fixpoint first_match (exp : Expr) (self : SnubaClickhouseTranslator)
  (rules : list ExpressionMapper) : M (option Expr) :=
  match rules with
  | [] => ret None
  | r :: rules' =>
      res <- r exp self ;;
      match res with
      | Some e => ret (Some e)
      | None => first_match exp self rules'
      end
  end.

Definition map_expression (exp : Expr) (self : SnubaClickhouseTranslator)
  (rules : list ExpressionMapper) : M Expr :=
  res <- first_match exp self rules ;;
  match res with
  | Some e => ret e
  | None => raise ValueError_CannotMap
  end.

(** The translator whose recursion bound is exhausted. *)
Definition out_of_fuel : SnubaClickhouseTranslator :=
  {| translate_column := fun _ => raise OutOfFuel;
     translate_literal := fun _ => raise OutOfFuel;
     translate_function_call := fun _ => raise OutOfFuel;
     translate_curried_function_call := fun _ => raise OutOfFuel;
     translate_subscriptable_reference := fun _ => raise OutOfFuel;
     translate_lambda := fun _ => raise OutOfFuel;
     translate_argument := fun _ => raise OutOfFuel |}.

(** [self.__map_expression(exp, self.__translation_rules.<kind>)]. *)
Definition visit (k : Kind) (rules : TranslationRules)
  (self : SnubaClickhouseTranslator) (exp : Expr) : M Expr :=
  map_expression exp self (rules_of k rules).

(** The methods of the class.  Every method hands the translator itself to
    the rules; [self] is that translator, with one call less to spend. *)
Definition methods (rules : TranslationRules) (self : SnubaClickhouseTranslator)
  : SnubaClickhouseTranslator :=
  {| translate_column := visit KColumn rules self;
     translate_literal := visit KLiteral rules self;
     translate_function_call := visit KFunctionCall rules self;
     translate_curried_function_call := visit KCurriedFunctionCall rules self;
     translate_subscriptable_reference :=
       visit KSubscriptableReference rules self;
     translate_lambda := visit KLambda rules self;
     translate_argument := visit KArgument rules self |}.

Fixpoint translator (rules : TranslationRules) (fuel : nat)
  : SnubaClickhouseTranslator :=
  match fuel with
  | 0 => out_of_fuel
  | S n => methods rules (translator rules n)
  end.

(** [SnubaClickhouseRulesTranslator(translation_rules)], run with a bound on
    the depth of nested [translate_*] calls. *)
Definition SnubaClickhouseRulesTranslator (translation_rules : TranslationRules)
  (fuel : nat) : SnubaClickhouseTranslator :=
  translator (concat translation_rules default_rules) fuel.

(** *** Rules used by the tests *)

(** Modelled from the spec: the ColumnMapper of the tests (its module,
    snuba.clickhouse.translator.rules, is not in the sources): the rule that
    maps the column [from_col] of [from_table] to [to_col] of [to_table] and
    declines on every other node. *)
Definition ColumnMapper (from_col : string) (from_table : option string)
  (to_col : string) (to_table : option string) : ExpressionMapper :=
  fun expression children_translator =>
    match expression with
    | Column _ alias table_name column_name =>
        if decide (column_name = from_col /\ table_name = from_table)
        then i <- new_object ;; ret (Some (Column i alias to_table to_col))
        else ret None
    | _ => ret None
    end.

(** A column rule whose result is a literal, as the return type
    [Union[Column, Literal, FunctionCall]] of [translate_column] allows. *)
Definition ColumnToLiteralMapper (from_col : string) (v : LiteralValue)
  : ExpressionMapper :=
  fun expression children_translator =>
    match expression with
    | Column _ alias table_name column_name =>
        if decide (column_name = from_col)
        then i <- new_object ;; ret (Some (Literal i alias v))
        else ret None
    | _ => ret None
    end.


(** A function rule that renames the calls of [from_name] and leaves their
    parameters to the translator. *)
Definition FunctionRenameMapper (from_name to_name : string)
  : ExpressionMapper :=
  fun expression children_translator =>
    match expression with
    | FunctionCall _ alias function_name parameters =>
        if decide (function_name = from_name)
        then
          ps <- mapM (translate_expression children_translator) parameters ;;
          i <- new_object ;;
          ret (Some (FunctionCall i alias to_name ps))
        else ret None
    | _ => ret None
    end.

(** A column rule that asks the translator for the translation of its
    column by the method for function calls. *)
Definition ColumnAsFunctionMapper (from_col : string) : ExpressionMapper :=
  fun expression children_translator =>
    match expression with
    | Column _ alias table_name column_name =>
        if decide (column_name = from_col)
        then
          e <- translate_function_call children_translator expression ;;
          ret (Some e)
        else ret None
    | _ => ret None
    end.

End RulesBased.

(** ** The structural matcher (snuba.query.matchers) *)

Module Matchers.

(** Expressions up to [==]: matching and the query processors below never
    look at the identity of a node. *)
Abbreviation Exp := (Expression unit).

(** What a pattern is applied to: an expression, or one of its fields. *)
Inductive Node : Type :=
| NString (s : option string)      (* an optional string: alias, table name *)
| NValue (v : LiteralValue)        (* the value of a literal *)
| NExpression (e : Exp).

(** Modelled from the spec: the module snuba.query.matchers is not in the
    sources; the combinators below are the primitives of section 4.2.
    [String] is Exact on a string, [None] in place of a nested descriptor means
    that the field is not looked at. *)
Inductive Pattern : Type :=
| String (value : string)
| AnyOptionalString
| Or (alternatives : list Pattern)
| Param (name : string) (inner : Pattern)
| ColumnMatch (table_name : option Pattern) (column_name : option Pattern)
| LiteralMatch (value : option Pattern)
| FunctionCallMatch (function_name : Pattern)
                    (parameters : option (list Pattern))
                    (with_optionals : bool).

(** Modelled from the spec: MatchResult, the capture table, from a capture
    name to the node recorded by [Param]. *)
Abbreviation MatchResult := (gmap string Node).

(** The exceptions of the matcher, of the accessors of MatchResult and of
    the code that uses them. *)
Inductive Exception : Type :=
| KeyError          (* a capture name that is absent *)
| AssertionError    (* a failed [assert isinstance(...)] *)
| ValueError        (* a failed unpacking *)
| AttributeError    (* a field read on a node that does not have it *)
| IndexError.       (* a parameter read past the end of the tuple *)

Inductive Result (A : Type) : Type :=
| Return (a : A)
| Raises (e : Exception).
Arguments Return {A}.
Arguments Raises {A}.

Definition bind {A B} (m : Result A) (k : A -> Result B) : Result B :=
  match m with
  | Return a => k a
  | Raises e => Raises e
  end.

Declare Scope match_scope.
Delimit Scope match_scope with matching.
Notation "x <- c1 ;; c2" := (bind c1 (fun x => c2))
  (at level 100, c1 at next level, right associativity) : match_scope.
Local Open Scope match_scope.

(** The node a literal value is, for the patterns on strings. *)
Definition value_node (v : LiteralValue) : Node :=
  match v with
  | VNone => NString None
  | VStr s => NString (Some s)
  | _ => NValue v
  end.

(** [isinstance(node, <class>)]: false of what is not an expression. *)
Definition isinstance_node (n : Node) (k : Kind) : bool :=
  match n with
  | NExpression e => isinstance e k
  | _ => false
  end.

(** The reads of a pattern on the node it is given.  A node that does not
    have the field raises AttributeError, and a tuple read past its end
    raises IndexError, as in Python. *)
Definition table_name_of (n : Node) : Result (option string) :=
  match n with
  | NExpression (Column _ _ t _) => Return t
  | _ => Raises AttributeError
  end.

Definition column_name_of (n : Node) : Result string :=
  match n with
  | NExpression (Column _ _ _ c) => Return c
  | _ => Raises AttributeError
  end.

Definition value_of (n : Node) : Result LiteralValue :=
  match n with
  | NExpression (Literal _ _ v) => Return v
  | _ => Raises AttributeError
  end.

Definition function_name_of (n : Node) : Result string :=
  match n with
  | NExpression (FunctionCall _ _ f _) => Return f
  | _ => Raises AttributeError
  end.

Definition parameters_of (n : Node) : Result (list Exp) :=
  match n with
  | NExpression (FunctionCall _ _ _ ps) => Return ps
  | _ => Raises AttributeError
  end.

Definition getitem (parameters : list Exp) (index : nat) : Result Exp :=
  match parameters !! index with
  | Some e => Return e
  | None => Raises IndexError
  end.

(** [pattern.match(value)] on a field whose descriptor may be absent. *)
Definition optional_field (descriptor : option Pattern)
  (run : Pattern -> Result (option MatchResult))
  : Result (option MatchResult) :=
  match descriptor with
  | Some q => run q
  | None => Return (Some ∅)
  end.

(** Modelled from the spec: [pattern.match(node)], [None] on every mismatch.
    - [String] matches that string only, [AnyOptionalString] any string and the
      absent string;
    - [Or] returns the result of the first alternative that matches;
    - [Param] records the matched node under its name;
    - a shape matches a node of its variant whose fields satisfy the nested
      descriptors: it tests the class of the node before it reads a field;
    - the parameters of a call are matched one by one, by position.  Without
      [with_optionals] the call has as many parameters as the shape lists.
      With it the call may have more, which are not looked at: this is what
      uuid_column_processor.py relies on when it lists the single parameter
      [toString(column)] of [replaceAll(toString(column), '-', '')].  A call
      with fewer parameters than the shape lists is a mismatch. *)
Fixpoint matches (p : Pattern) (n : Node) {struct p}
  : Result (option MatchResult) :=
  match p with
  | String value =>
      match n with
      | NString (Some s) =>
          if decide (s = value) then Return (Some ∅) else Return None
      | _ => Return None
      end
  | AnyOptionalString =>
      match n with
      | NString _ => Return (Some ∅)
      | _ => Return None
      end
  | Or alternatives =>
      (fix first (l : list Pattern) : Result (option MatchResult) :=
         match l with
         | [] => Return None
         | a :: l' =>
             ret <- matches a n ;;
             match ret with
             | Some r => Return (Some r)
             | None => first l'
             end
         end) alternatives
  | Param name inner =>
      result <- matches inner n ;;
      match result with
      | Some r => Return (Some (<[name := n]> r))
      | None => Return None
      end
  | ColumnMatch table_name column_name =>
      if negb (isinstance_node n KColumn) then Return None
      else
        t <- table_name_of n ;;
        partial <- optional_field table_name
                     (fun q => matches q (NString t)) ;;
        match partial with
        | None => Return None
        | Some r1 =>
            c <- column_name_of n ;;
            partial <- optional_field column_name
                         (fun q => matches q (NString (Some c))) ;;
            match partial with
            | None => Return None
            | Some r2 => Return (Some (r1 ∪ r2))
            end
        end
  | LiteralMatch value =>
      if negb (isinstance_node n KLiteral) then Return None
      else
        v <- value_of n ;;
        optional_field value (fun q => matches q (value_node v))
  | FunctionCallMatch function_name parameters with_optionals =>
      if negb (isinstance_node n KFunctionCall) then Return None
      else
        f <- function_name_of n ;;
        partial <- matches function_name (NString (Some f)) ;;
        match partial with
        | None => Return None
        | Some r =>
            match parameters with
            | None => Return (Some r)
            | Some shapes =>
                ps <- parameters_of n ;;
                if (if with_optionals
                    then Nat.ltb (length ps) (length shapes)
                    else negb (Nat.eqb (length shapes) (length ps)))
                then Return None
                else
                  (fix all (qs : list Pattern) (index : nat)
                       (acc : MatchResult) : Result (option MatchResult) :=
                     match qs with
                     | [] => Return (Some acc)
                     | q :: qs' =>
                         e <- getitem ps index ;;
                         p_result <- matches q (NExpression e) ;;
                         match p_result with
                         | Some r' => all qs' (S index) (acc ∪ r')
                         | None => Return None
                         end
                     end) shapes 0 r
            end
        end
  end.

(** Modelled from the spec: the two accessors of MatchResult; an absent name
    is a usage error, and [expression] gives captured expressions only. *)
Definition contains (r : MatchResult) (name : string) : bool :=
  match r !! name with Some _ => true | None => false end.

Definition expression (r : MatchResult) (name : string) : Result Exp :=
  match r !! name with
  | Some (NExpression e) => Return e
  | Some _ => Raises AssertionError
  | None => Raises KeyError
  end.

End Matchers.

(** ** Condition builders (snuba.query.conditions) *)

Module conditions.
Import Matchers.

(** Modelled from the spec: [binary_condition] (snuba.query.conditions is not
    in the sources): a condition is the call of the condition function on its
    two sides. *)
Definition binary_condition (alias : option string) (function_name : string)
  (lhs rhs : Exp) : Exp :=
  FunctionCall tt alias function_name [lhs; rhs].

(** Modelled from the spec: [not_in_condition], the condition
    [lhs NOT IN (rhs...)]: the NOT IN function applied to [lhs] and to the
    tuple of the literals.  [NOT_IN] is [ConditionFunctions.NOT_IN]. *)
Definition not_in_condition (NOT_IN : string) (alias : option string)
  (lhs : Exp) (rhs : list Exp) : Exp :=
  binary_condition alias NOT_IN lhs (FunctionCall tt None "tuple" rhs).

End conditions.

(** ** UUIDColumnProcessor (snuba/query/processors/uuid_column_processor.py) *)

Module UUIDColumnProcessor.
Import Matchers conditions.

Section Processor.

(** What the module takes from outside the sources: the names
    [ConditionFunctions.IN] and [ConditionFunctions.NOT_IN], the keys of
    [FUNCTION_TO_OPERATOR], Python's [str] on a literal value, and
    [str(uuid.UUID(s))], [None] when the constructor raises. *)
Variable IN NOT_IN : string.
Variable FUNCTION_TO_OPERATOR : list string.
Variable str : LiteralValue -> string.
Variable uuid_UUID : string -> option string.

(** The argument of the constructor. *)
Variable uuid_columns : gset string.

Definition uuid_column_match : Pattern :=
  Or (List.map String (elements uuid_columns)).

Definition formatted_uuid_pattern (suffix : string) : Pattern :=
  FunctionCallMatch (String "replaceAll")
    (Some [FunctionCallMatch (String "toString")
             (Some [Param ("formatted_uuid_column" +:+ suffix)
                      (ColumnMatch None (Some uuid_column_match))])
             false])
    true.

Definition uuid_in_condition : Pattern :=
  FunctionCallMatch (Or [String IN; String NOT_IN])
    (Some [formatted_uuid_pattern "";
           Param "params" (FunctionCallMatch (String "tuple") None false)])
    false.

Definition uuid_condition : Pattern :=
  FunctionCallMatch
    (Or (List.map String
           (List.filter
              (fun op => negb (bool_decide (op = IN \/ op = NOT_IN)))
              FUNCTION_TO_OPERATOR)))
    (Some [Or [Param "literal_0" (LiteralMatch (Some AnyOptionalString));
               formatted_uuid_pattern "_0"];
           Or [Param "literal_1" (LiteralMatch (Some AnyOptionalString));
               formatted_uuid_pattern "_1"]])
    false.

Definition parse_uuid (lit : Exp) : Exp :=
  match lit with
  | Literal _ alias value =>
      match uuid_UUID (str value) with
      | Some parsed => Literal tt alias (VStr parsed)
      | None => lit
      end
  | _ => lit
  end.

(** The loop over the parameters of the tuple: [None] when it leaves the
    function at a parameter that is not a literal. *)
Fixpoint new_fn_params (parameters : list Exp) : option (list Exp) :=
  match parameters with
  | [] => Some []
  | param :: rest =>
      if isinstance param KLiteral
      then match new_fn_params rest with
           | Some ps => Some (parse_uuid param :: ps)
           | None => None
           end
      else None
  end.

(** The loop over the two suffixes of the second pattern. *)
Fixpoint new_params (result : MatchResult) (suffixes : list string)
  : Result (list Exp) :=
  match suffixes with
  | [] => Return []
  | suffix :: rest =>
      let continue (here : list Exp) :=
        match new_params result rest with
        | Return ps => Return (here ++ ps)
        | Raises e => Raises e
        end in
      if contains result ("literal" +:+ suffix)
      then match expression result ("literal" +:+ suffix) with
           | Return lit => continue [parse_uuid lit]
           | Raises e => Raises e
           end
      else if contains result ("formatted_uuid_column" +:+ suffix)
      then match expression result ("formatted_uuid_column" +:+ suffix) with
           | Return column =>
               if isinstance column KColumn then continue [column]
               else Raises AssertionError
           | Raises e => Raises e
           end
      else continue []
  end.

Definition process_condition (exp : Exp) : Result Exp :=
  match exp with
  | FunctionCall _ exp_alias exp_function_name _ =>
      match matches uuid_in_condition (NExpression exp) with
      | Raises e => Raises e
      | Return (Some result) =>
          match expression result "formatted_uuid_column" with
          | Return (Column _ _ table_name column_name) =>
              let new_column := Column tt None table_name column_name in
              match expression result "params" with
              | Return (FunctionCall _ alias function_name parameters) =>
                  match new_fn_params parameters with
                  | None => Return exp
                  | Some ps =>
                      let new_function :=
                        FunctionCall tt alias function_name ps in
                      Return (binary_condition exp_alias exp_function_name
                                new_column new_function)
                  end
              | Return _ => Raises AssertionError
              | Raises e => Raises e
              end
          | Return _ => Raises AssertionError
          | Raises e => Raises e
          end
      | Return None =>
          match matches uuid_condition (NExpression exp) with
          | Raises e => Raises e
          | Return (Some result) =>
              match new_params result ["_0"; "_1"] with
              | Return [left_exp; right_exp] =>
                  Return (binary_condition exp_alias exp_function_name
                            left_exp right_exp)
              | Return _ => Raises ValueError
              | Raises e => Raises e
              end
          | Return None => Return exp
          end
      end
  | _ => Return exp
  end.

End Processor.

End UUIDColumnProcessor.

(** ** PostReplacementConsistencyEnforcer
       (snuba/datasets/storages/processors/replaced_groups.py) *)

Module ReplacedGroups.
Import Matchers conditions.

(** The conditions of the legacy query body: nested lists of strings and
    numbers, like [[["assumeNotNull", ["group_id"]], "NOT IN", [1, 2]]]. *)
Inductive Legacy : Type :=
| LStr (s : string)
| LInt (z : Z)
| LList (l : list Legacy).

Fixpoint legacy_eqb (a b : Legacy) {struct a} : bool :=
  match a, b with
  | LStr s, LStr s' => bool_decide (s = s')
  | LInt z, LInt z' => Z.eqb z z'
  | LList l, LList l' =>
      (fix all (l l' : list Legacy) : bool :=
         match l, l' with
         | [], [] => true
         | x :: r, x' :: r' => legacy_eqb x x' && all r r'
         | _, _ => false
         end) l l'
  | _, _ => false
  end.

(** [c[i]] on a legacy condition. *)
Definition item (c : Legacy) (i : nat) : option Legacy :=
  match c with
  | LList l => l !! i
  | _ => None
  end.

(** [a == b] where either side may be missing ([None]). *)
Definition option_legacy_eqb (a b : option Legacy) : bool :=
  match a, b with
  | Some x, Some y => legacy_eqb x y
  | None, None => true
  | _, _ => false
  end.

(** Modelled from the spec: the Query container (snuba.clickhouse.query is
    not in the sources), with the operations of section 6: the condition tree
    is kept as the list of the conditions ANDed together, next to the legacy
    conditions and the FINAL flag. *)
Record Query : Type := {
  ast_condition : list Exp;
  legacy_conditions : list Legacy;
  final : bool
}.

Definition add_condition_to_ast (query : Query) (condition : Exp) : Query :=
  {| ast_condition := ast_condition query ++ [condition];
     legacy_conditions := legacy_conditions query;
     final := final query |}.

Definition add_conditions (query : Query) (cs : list Legacy) : Query :=
  {| ast_condition := ast_condition query;
     legacy_conditions := legacy_conditions query ++ cs;
     final := final query |}.

Definition set_final (query : Query) (b : bool) : Query :=
  {| ast_condition := ast_condition query;
     legacy_conditions := legacy_conditions query;
     final := b |}.

(** What the processor does to the outside, in order. *)
Inductive Event : Type :=
| GetProjectsQueryFlags (project_ids : list Z)
                        (replacer_state_name : option string)
| MetricsIncrement (name : string) (tags : list (string * string))
| LoggerWarning (message : string).

(** What the processor reads from the outside: the request settings, the
    runtime configuration, the project ids of the query and the replacement
    state.  The two accessors are calls that may raise: [None] stands for an
    exception. *)
Record Environment : Type := {
  get_turbo : bool;
  consistency_enforcer_processor_enabled : Z;
  get_project_ids_in_query : Query -> string -> option (list Z);
  get_projects_query_flags :
    list Z -> option string -> option (bool * list Z);
  max_group_ids_exclude : Z
}.

Inductive Status : Type :=
| Returned
| Raised.

(** The end of a call: how it ended, the query as it left it, and the
    events it produced. *)
Record Run : Type := {
  status : Status;
  query_after : Query;
  events : list Event
}.

(** The values of the local variables [set_final] and [condition_to_add]
    at line 87, with the query and the events so far. *)
Record Decision : Type := {
  decided_final : bool;
  condition_to_add : option Legacy;
  decided_query : Query;
  decided_events : list Event
}.

Definition str_bool (b : bool) : string := if b then "True" else "False".

Section Processor.

(** [ConditionFunctions.NOT_IN] and [snuba.util.is_condition], which are not
    in the sources, and the two arguments of the constructor. *)
Variable NOT_IN : string.
Variable is_condition : Legacy -> bool.
Variable project_column : string.
Variable replacer_state_name : option string.

Definition group_id_lhs : Legacy :=
  LList [LStr "assumeNotNull"; LList [LStr "group_id"]].

(** Lines 55 to 85; [None] when the lookup of lines 58 to 60 raises: it is
    not inside the [try] of line 46, so the exception leaves the method.
    [Column(None, "group_id", None)]: the arguments are the alias, the column
    name and the table name at this revision. *)
Definition decide_consistency (env : Environment) (project_ids : list Z)
  (query : Query) : option Decision :=
  match project_ids with
  | [] =>
      Some {| decided_final := false; condition_to_add := None;
              decided_query := query; decided_events := [] |}
  | _ :: _ =>
      let lookup := [GetProjectsQueryFlags project_ids replacer_state_name] in
      match get_projects_query_flags env project_ids replacer_state_name with
      | None => None
      | Some (final, exclude_group_ids) =>
          if negb final && negb (bool_decide (exclude_group_ids = [])) then
            if (max_group_ids_exclude env
                <? Z.of_nat (length exclude_group_ids))%Z
            then
              Some {| decided_final := true; condition_to_add := None;
                      decided_query := query; decided_events := lookup |}
            else
              Some {| decided_final := false;
                      condition_to_add :=
                        Some (LList [group_id_lhs; LStr "NOT IN";
                                     LList (List.map LInt exclude_group_ids)]);
                      decided_query :=
                        add_condition_to_ast query
                          (not_in_condition NOT_IN None
                             (FunctionCall tt None "assumeNotNull"
                                [Column tt None None "group_id"])
                             (List.map (fun p => Literal tt None (VInt p))
                                exclude_group_ids));
                      decided_events := lookup |}
          else
            Some {| decided_final := final; condition_to_add := None;
                    decided_query := query; decided_events := lookup |}
      end
  end.

(** Lines 100 to 106. *)
Definition existing_groups_conditions (query : Query) : list Legacy :=
  omap (fun c =>
          if is_condition c
             && option_legacy_eqb (item c 0) (Some group_id_lhs)
             && option_legacy_eqb (item c 1) (Some (LStr "NOT IN"))
          then item c 2 else None)
    (legacy_conditions query).

(** Lines 92 to 135: the processor is disabled, the decision is compared
    with the state of the query. *)
Definition compare_with_extension (d : Decision) : Run :=
  let query := decided_query d in
  let mismatch_final := negb (eqb (decided_final d) (final query)) in
  let ev1 :=
    if mismatch_final then [MetricsIncrement "mismatch.final" []] else [] in
  let existing := existing_groups_conditions query in
  if Nat.ltb 1 (length existing) then
    {| status := Returned; query_after := query;
       events := decided_events d ++ ev1 ++
         [MetricsIncrement "mismatch.multiple_group_condition" [];
          LoggerWarning "Multiple group exclusion conditions in the Query"] |}
  else
    let mismatch_group :=
      negb (option_legacy_eqb
              (match condition_to_add d with
               | Some c => item c 2
               | None => None
               end)
              (head existing)) in
    let ev2 :=
      if mismatch_group
      then [MetricsIncrement "mismatch.group_id"
              [("extension", str_bool (Nat.ltb 0 (length existing)));
               ("processor",
                str_bool (bool_decide (condition_to_add d <> None)))]]
      else [] in
    let ev3 :=
      if mismatch_final || mismatch_group
      then [LoggerWarning
              "Discrepancy between project_extension and replacement consistency processor"]
      else [MetricsIncrement "match" []] in
    {| status := Returned; query_after := query;
       events := decided_events d ++ ev1 ++ ev2 ++ ev3 |}.

Definition process_query (env : Environment) (query : Query) : Run :=
  if get_turbo env then
    {| status := Returned; query_after := query; events := [] |}
  else
    let activated :=
      negb (Z.eqb (consistency_enforcer_processor_enabled env) 0) in
    match get_project_ids_in_query env query project_column with
    | None =>
        if activated then
          {| status := Raised; query_after := query; events := [] |}
        else
          {| status := Returned; query_after := query;
             events :=
               [LoggerWarning "Failed to find project ids in the Query"] |}
    | Some project_ids =>
        match decide_consistency env project_ids query with
        | None =>
            {| status := Raised; query_after := query;
               events :=
                 [GetProjectsQueryFlags project_ids replacer_state_name] |}
        | Some d =>
            if activated then
              let query := set_final (decided_query d) (decided_final d) in
              let query :=
                match condition_to_add d with
                | Some c => add_conditions query [c]
                | None => query
                end in
              {| status := Returned; query_after := query;
                 events := decided_events d |}
            else compare_with_extension d
        end
    end.

End Processor.

End ReplacedGroups.

(** ** Conditions and their expressions
       (snuba.query.conditions, as used by tests/query/test_conditions.py) *)

Module ConditionTree.
Import Matchers.

Inductive Operator : Type :=
| GT | LT | GTE | LTE | EQ | NEQ.

(** Modelled from the spec: the Condition classes of section 3, with the
    constructor arguments of the tests. *)
Inductive Condition : Type :=
| BasicCondition (lhs : Exp) (operator : Operator) (rhs : Exp)
| AndCondition (sub_conditions : list Condition)
| OrCondition (sub_conditions : list Condition).

(** Modelled from the spec: [Expression.transform(func)] (snuba.query.expressions
    is not in the sources): [func] is applied to every node, innermost first:
    the children are rewritten, then [func] is offered the rebuilt node.  The
    run is given with its trace: the nodes [func] was called on, in the order
    of the calls, and the value returned. *)
Fixpoint transform_run (func : Exp -> Exp) (e : Exp) : list Exp * Exp :=
  match e with
  | Column _ _ _ _ | Literal _ _ _ | Argument _ _ _ => ([e], func e)
  | FunctionCall i a f ps =>
      let rs := List.map (transform_run func) ps in
      let node := FunctionCall i a f (List.map snd rs) in
      (List.concat (List.map fst rs) ++ [node], func node)
  | CurriedFunctionCall i a f ps =>
      let rf := transform_run func f in
      let rs := List.map (transform_run func) ps in
      let node := CurriedFunctionCall i a (snd rf) (List.map snd rs) in
      (fst rf ++ List.concat (List.map fst rs) ++ [node], func node)
  | SubscriptableReference i a c k =>
      let rc := transform_run func c in
      let rk := transform_run func k in
      let node := SubscriptableReference i a (snd rc) (snd rk) in
      (fst rc ++ fst rk ++ [node], func node)
  | Lambda i a ps b =>
      let rb := transform_run func b in
      let node := Lambda i a ps (snd rb) in
      (fst rb ++ [node], func node)
  end.

Definition transform (func : Exp -> Exp) (e : Exp) : Exp :=
  snd (transform_run func e).

(** The nodes [func] is called on by [e.transform(func)], in order. *)
Definition calls (func : Exp -> Exp) (e : Exp) : list Exp :=
  fst (transform_run func e).


(** Modelled from the spec: iterating [condition.get_expressions()]: the
    expressions reachable through [lhs], [rhs] and the nested conditions, each
    in pre-order. *)
Fixpoint iterate (c : Condition) : list Exp :=
  match c with
  | BasicCondition lhs _ rhs => iter_expression lhs ++ iter_expression rhs
  | AndCondition cs | OrCondition cs => List.concat (List.map iterate cs)
  end.

(** The rewriting of the expressions of a condition: the AND/OR structure is
    kept, the sides are transformed. *)
Fixpoint map_expressions (func : Exp -> Exp) (c : Condition) : Condition :=
  match c with
  | BasicCondition lhs op rhs =>
      BasicCondition (transform func lhs) op (transform func rhs)
  | AndCondition cs => AndCondition (List.map (map_expressions func) cs)
  | OrCondition cs => OrCondition (List.map (map_expressions func) cs)
  end.

(** The condition objects of a program, by the name of the variable that
    holds them. *)
Abbreviation Store := (gmap string Condition).

(** [list(<name>.get_expressions())]. *)
Definition get_expressions (store : Store) (name : string)
  : option (list Exp) :=
  iterate <$> store !! name.

(** [<name>.get_expressions().transform(func)], a statement.  The tests under
    tests/query/test_conditions.py drop its value and read the new expressions
    from the same condition: the call updates the object it is called on. *)
Definition get_expressions_transform (name : string) (func : Exp -> Exp)
  (store : Store) : Store :=
  alter (map_expressions func) name store.

(** The mapping function of test_map_expressions_in_basic_condition and of
    test_nested_simple_condition: the column [from] becomes the column [c3]. *)
Definition replace_col (from : string) (c3 : Exp) (e : Exp) : Exp :=
  match e with
  | Column _ _ _ column_name =>
      if decide (column_name = from) then c3 else e
  | _ => e
  end.

End ConditionTree.

(** ** Rules made of a matcher and an executor
       (snuba/datasets/plans/translator/mapping_rules.py) *)

Module MappingRules.
Import RulesBased.
Local Open Scope translation_scope.

Section StructuredMatchingMappingRule.

(** The values of the mapping of parameters ([Mapping[str, Any]]). *)
Variable Any : Type.

(** ExpressionMatcher: whether the expression is accepted, the parameters
    it found and the expressions to translate, by name; the mappings are the
    lists of their items, in iteration order. *)
Definition ExpressionMatcher : Type :=
  Expr -> bool * list (string * Any) * list (string * Expr).

(** StructuredRuleExecutor: builds the result from the expression, the
    parameters and the translated expressions. *)
Definition StructuredRuleExecutor : Type :=
  Expr -> list (string * Any) -> list (string * Expr) -> M Expr.

(** [{param: exp.accept(children_translator) for param, exp in
    to_translate.items()}]. *)
Definition translated_params (children_translator : SnubaClickhouseTranslator)
  (to_translate : list (string * Expr)) : M (list (string * Expr)) :=
  mapM (fun item =>
          e <- translate_expression children_translator (snd item) ;;
          ret (fst item, e))
    to_translate.

(** StructuredMatchingMappingRule(matcher, executor).attemptMap. *)
Definition attemptMap (matcher : ExpressionMatcher)
  (executor : StructuredRuleExecutor) : ExpressionMapper :=
  fun expression children_translator =>
    let '(accepted_expression, parameters, to_translate) :=
      matcher expression in
    if negb accepted_expression then ret None
    else
      translated <- translated_params children_translator to_translate ;;
      result <- executor expression parameters translated ;;
      ret (Some result).

End StructuredMatchingMappingRule.

End MappingRules.

(** ** Request and RequestSchema (snuba/request.py) *)

Module Request.

(** JSON values: the bodies of the requests and the defaults of schemas. *)
Inductive Json : Type :=
| JNull
| JBool (b : bool)
| JNumber (z : Z)
| JString (s : string)
| JArray (l : list Json)
| JObject (l : list (string * Json)).

(** The value under the key 'default' of a schema: a value, or a callable,
    given by the value its call returns. *)
Inductive Default : Type :=
| DefaultValue (v : Json)
| DefaultCallable (returns : Json).

(** A schema is a mapping; these are the keys that request.py reads, each
    one present or not.  The mappings 'properties' and 'definitions' are the
    lists of their items, in iteration order. *)
Inductive Schema : Type :=
| MkSchema (type_ : option string)
           (additionalProperties : option Json)
           (required : option (list string))
           (properties : option (list (string * Schema)))
           (definitions : option (list (string * Schema)))
           (default : option Default).

Definition type_ (s : Schema) : option string :=
  match s with MkSchema t _ _ _ _ _ => t end.
Definition additionalProperties (s : Schema) : option Json :=
  match s with MkSchema _ a _ _ _ _ => a end.
Definition required (s : Schema) : option (list string) :=
  match s with MkSchema _ _ r _ _ _ => r end.
Definition properties (s : Schema) : option (list (string * Schema)) :=
  match s with MkSchema _ _ _ p _ _ => p end.
Definition definitions (s : Schema) : option (list (string * Schema)) :=
  match s with MkSchema _ _ _ _ d _ => d end.
Definition default (s : Schema) : option Default :=
  match s with MkSchema _ _ _ _ _ d => d end.

Inductive Exception : Type :=
| KeyError            (* [schema['type']] and the like on a missing key *)
| AssertionError
| ValidationError.    (* raised by validate_jsonschema *)

Inductive Result (A : Type) : Type :=
| Return (a : A)
| Raises (e : Exception).
Arguments Return {A}.
Arguments Raises {A}.

Definition bind {A B} (m : Result A) (k : A -> Result B) : Result B :=
  match m with
  | Return a => k a
  | Raises e => Raises e
  end.

(** [Request]: the query and the extensions, by name. *)
Record Request : Type := {
  query : gmap string Json;
  extensions : list (string * gmap string Json)
}.

(** [ChainMap(...)[key]]: the value in the first mapping that has the key. *)
Fixpoint chain_lookup (maps : list (gmap string Json)) (key : string)
  : option Json :=
  match maps with
  | [] => None
  | m :: maps' =>
      match m !! key with
      | Some v => Some v
      | None => chain_lookup maps' key
      end
  end.

(** [request.body[key]], [None] when the key is in none of the mappings. *)
Definition body (r : Request) (key : string) : option Json :=
  chain_lookup (query r :: List.map snd (extensions r)) key.

(** The two inner loops of the constructor: every item is added to the
    mapping of the composite schema, after the assertion that its name is not
    there yet. *)
Fixpoint add_items (items composite : list (string * Schema))
  : Result (list (string * Schema)) :=
  match items with
  | [] => Return composite
  | (name, schema) :: items' =>
      if bool_decide (name ∈ List.map fst composite)
      then Raises AssertionError
      else add_items items' (composite ++ [(name, schema)])
  end.

(** The composite schema while it is built: 'properties', 'required' and
    'definitions'; 'type' is 'object' and 'additionalProperties' False. *)
Record Composite : Type := {
  composite_properties : list (string * Schema);
  composite_required : list string;
  composite_definitions : list (string * Schema)
}.

(** [a is False]. *)
Definition is_False (a : Json) : bool :=
  match a with
  | JBool false => true
  | _ => false
  end.

(** One turn of the outer loop of the constructor. *)
Definition add_schema (schema : Schema) (c : Composite) : Result Composite :=
  match type_ schema with
  | None => Raises KeyError
  | Some t =>
      if negb (bool_decide (t = "object")) then Raises AssertionError
      else
        match additionalProperties schema with
        | None => Raises KeyError
        | Some a =>
            if negb (is_False a) then Raises AssertionError
            else
              let required' :=
                composite_required c
                ++ match required schema with Some r => r | None => [] end in
              match properties schema with
              | None => Raises KeyError
              | Some ps =>
                  bind (add_items ps (composite_properties c))
                    (fun properties' =>
                       bind (add_items
                               match definitions schema with
                               | Some ds => ds
                               | None => []
                               end (composite_definitions c))
                         (fun definitions' =>
                            Return
                              {| composite_properties := properties';
                                 composite_required := required';
                                 composite_definitions := definitions' |}))
              end
        end
  end.

Fixpoint add_schemas (schemas : list Schema) (c : Composite)
  : Result Composite :=
  match schemas with
  | [] => Return c
  | schema :: schemas' => bind (add_schema schema c) (add_schemas schemas')
  end.

Record RequestSchema : Type := {
  query_schema : Schema;
  extension_schemas : list (string * Schema);
  composite_schema : Schema
}.

(** [RequestSchema(query_schema, extensions_schemas)].  The 'required' list
    ends as a set: the list without its repetitions. *)
Definition RequestSchema_init (query_schema : Schema)
  (extensions_schemas : list (string * Schema)) : Result RequestSchema :=
  bind (add_schemas (query_schema :: List.map snd extensions_schemas)
          {| composite_properties := []; composite_required := [];
             composite_definitions := [] |})
    (fun c =>
       Return
         {| query_schema := query_schema;
            extension_schemas := extensions_schemas;
            composite_schema :=
              MkSchema (Some "object") (Some (JBool false))
                (Some (remove_dups (composite_required c)))
                (Some (composite_properties c))
                (Some (composite_definitions c)) None |}).

(** [{key: value.pop(key) for key in keys if key in value}]: the mapping
    built and what is left of [value]. *)
Fixpoint pop_keys (keys : list string) (value : gmap string Json)
  : gmap string Json * gmap string Json :=
  match keys with
  | [] => (∅, value)
  | key :: keys' =>
      match value !! key with
      | Some v =>
          let '(taken, rest) := pop_keys keys' (delete key value) in
          (<[key := v]> taken, rest)
      | None => pop_keys keys' value
      end
  end.

(** The loop of [validate] over the extension schemas. *)
Fixpoint pop_extensions (schemas : list (string * Schema))
  (value : gmap string Json) : Result (list (string * gmap string Json)) :=
  match schemas with
  | [] => Return []
  | (extension_name, extension_schema) :: schemas' =>
      match properties extension_schema with
      | None => Raises KeyError
      | Some ps =>
          let '(taken, rest) := pop_keys (List.map fst ps) value in
          bind (pop_extensions schemas' rest)
            (fun es => Return ((extension_name, taken) :: es))
      end
  end.

Section Validate.

(** [snuba.schemas.validate_jsonschema], which is not in the sources: the
    validated value, [None] when it raises. *)
Variable validate_jsonschema :
  gmap string Json -> Schema -> option (gmap string Json).

Definition validate (self : RequestSchema) (value : gmap string Json)
  : Result Request :=
  match validate_jsonschema value (composite_schema self) with
  | None => Raises ValidationError
  | Some value =>
      match properties (query_schema self) with
      | None => Raises KeyError
      | Some ps =>
          let '(query, rest) := pop_keys (List.map fst ps) value in
          bind (pop_extensions (extension_schemas self) rest)
            (fun extensions =>
               Return {| query := query; extensions := extensions |})
      end
  end.

End Validate.

Fixpoint generate_template_impl (schema : Schema) : Json :=
  match schema with
  | MkSchema typ _ _ props _ dflt =>
      match dflt with
      | Some (DefaultValue v) => v
      | Some (DefaultCallable v) => v
      | None =>
          if bool_decide (typ = Some "object") then
            match props with
            | Some l =>
                JObject
                  ((fix items (l : list (string * Schema))
                      : list (string * Json) :=
                      match l with
                      | [] => []
                      | (prop, subschema) :: l' =>
                          (prop, generate_template_impl subschema) :: items l'
                      end) l)
            | None => JObject []
            end
          else if bool_decide (typ = Some "array") then JArray []
          else if bool_decide (typ = Some "string") then JString ""
          else JNull
      end
  end.

Definition generate_template (self : RequestSchema) : Json :=
  generate_template_impl (composite_schema self).

End Request.

(** ** Clusters and storage sets (snuba/clusters/cluster.py) *)

Module Clusters.

Inductive Exception : Type :=
| AssertionError
| ValueError        (* [StorageSetKey(name)] on a name that is not a key *)
| KeyError.

Inductive Result (A : Type) : Type :=
| Return (a : A)
| Raises (e : Exception).
Arguments Return {A}.
Arguments Raises {A}.

(** The fields of a ClickhouseCluster that the module reads. *)
Record ClickhouseCluster : Type := {
  host : string;
  port : Z;
  http_port : Z;
  storage_sets : gset string;
  single_node : bool;
  cluster_name : option string
}.

(** [ClickhouseCluster(...)]: a cluster of several nodes has a name. *)
Definition ClickhouseCluster_init (host : string) (port http_port : Z)
  (storage_sets : gset string) (single_node : bool)
  (cluster_name : option string) : Result ClickhouseCluster :=
  if negb single_node
     && match cluster_name with
        | Some name => bool_decide (name = "")
        | None => true
        end
  then Raises AssertionError
  else Return {| host := host; port := port; http_port := http_port;
                 storage_sets := storage_sets; single_node := single_node;
                 cluster_name := cluster_name |}.

Section Module.

(** The values of the enumeration StorageSetKey
    (snuba.clusters.storage_sets, which is not in the sources). *)
Variable StorageSetKey : gset string.

(** [cluster.get_storage_set_keys()]: the enumeration rejects the names
    that are not among its values. *)
Definition get_storage_set_keys (cluster : ClickhouseCluster)
  : Result (list string) :=
  if forallb (fun s => bool_decide (s ∈ StorageSetKey))
       (elements (storage_sets cluster))
  then Return (elements (storage_sets cluster))
  else Raises ValueError.

(** [(storage_set, cluster) for cluster in CLUSTERS for storage_set in
    cluster.get_storage_set_keys()]. *)
Fixpoint registrations (CLUSTERS : list ClickhouseCluster)
  : Result (list (string * ClickhouseCluster)) :=
  match CLUSTERS with
  | [] => Return []
  | cluster :: rest =>
      match get_storage_set_keys cluster with
      | Raises e => Raises e
      | Return keys =>
          match registrations rest with
          | Raises e => Raises e
          | Return l => Return (List.map (fun k => (k, cluster)) keys ++ l)
          end
      end
  end.

(** The body of the module after the list CLUSTERS: the two assertions, then
    the dictionary from storage set to cluster, in which a later item
    replaces an earlier one with the same key. *)
Definition STORAGE_SET_CLUSTER_MAP (CLUSTERS : list ClickhouseCluster)
  : Result (gmap string ClickhouseCluster) :=
  match registrations CLUSTERS with
  | Raises e => Raises e
  | Return items =>
      let registered_storage_sets := List.map fst items in
      let unique_registered_storage_sets : gset string :=
        list_to_set registered_storage_sets in
      if negb (bool_decide (length registered_storage_sets
                            = size unique_registered_storage_sets))
      then Raises AssertionError
      else if negb (bool_decide
                      (StorageSetKey = unique_registered_storage_sets))
      then Raises AssertionError
      else Return (list_to_map (reverse items))
  end.

Definition get_cluster (map : gmap string ClickhouseCluster)
  (storage_set_key : string) : Result ClickhouseCluster :=
  match map !! storage_set_key with
  | Some cluster => Return cluster
  | None => Raises KeyError
  end.

End Module.

End Clusters.

(** * Properties of the rule based translator *)

Module RulesBasedSpec.
Import RulesBased.
Local Open Scope translation_scope.

(** ** Generic facts *)

Lemma translate_expression_kind rules fuel (e : Expr) :
  translate_expression (translator rules fuel) e
  = translate_kind (kind e) (translator rules fuel) e.
Proof. reflexivity. Qed.

Lemma translate_kind_S k rules n (e : Expr) :
  translate_kind k (translator rules (S n)) e
  = map_expression e (translator rules n) (rules_of k rules).
Proof. destruct k; reflexivity. Qed.

Lemma rules_of_concat k (a b : TranslationRules) :
  rules_of k (concat a b) = rules_of k a ++ rules_of k b.
Proof. destruct k; reflexivity. Qed.

Lemma bind_Ok {A B} (m : M A) (k : A -> M B) s a s' :
  m s = Ok a s' -> bind m k s = k a s'.
Proof. unfold bind. intros ->. reflexivity. Qed.

Lemma bind_Raise {A B} (m : M A) (k : A -> M B) s e :
  m s = Raise e -> bind m k s = Raise e.
Proof. unfold bind. intros ->. reflexivity. Qed.

(** First match wins, and the rules of the first list come first. *)
Lemma first_match_app exp self (a b : list ExpressionMapper) s :
  first_match exp self (a ++ b) s
  = match first_match exp self a s with
    | Ok (Some e) s' => Ok (Some e) s'
    | Ok None s' => first_match exp self b s'
    | Raise x => Raise x
    end.
Proof.
  revert s. induction a as [|r a IH]; intros s; simpl.
  - reflexivity.
  - unfold bind. destruct (r exp self s) as [[e|] s'|x]; simpl; auto.
Qed.

Lemma oids_FunctionCall {Id} (i : Id) a f ps :
  oids (FunctionCall i a f ps) = i :: List.concat (List.map oids ps).
Proof.
  unfold oids. simpl. f_equal.
  rewrite concat_map, map_map. reflexivity.
Qed.

Lemma oids_CurriedFunctionCall {Id} (i : Id) a f ps :
  oids (CurriedFunctionCall i a f ps)
  = i :: oids f ++ List.concat (List.map oids ps).
Proof.
  unfold oids. simpl. f_equal.
  rewrite map_app, concat_map, map_map. reflexivity.
Qed.

(** ** The default rules copy *)

(** [e'] is a copy of [e] built between the allocation states [s] and [s']:
    equal to [e] field by field, made only of objects allocated meanwhile. *)
Definition copy_of (s s' : nat) (e e' : Expr) : Prop :=
  erase e' = erase e /\ s <= s' /\ Forall (fun i => s <= i) (oids e').

Definition copies_of (s s' : nat) (es es' : list Expr) : Prop :=
  List.map erase es' = List.map erase es /\ s <= s' /\
  Forall (fun i => s <= i) (List.concat (List.map oids es')).

Lemma mapM_copies (f : Expr -> M Expr) (P : Expr -> Prop) :
  (forall e s, P e -> exists e' s', f e s = Ok e' s' /\ copy_of s s' e e') ->
  forall es s, Forall P es ->
    exists es' s', mapM f es s = Ok es' s' /\ copies_of s s' es es'.
Proof.
  intros Hf es. induction es as [|e es IH]; intros s HP.
  - exists [], s. repeat split; auto.
  - inversion HP as [|? ? He Hes]; subst.
    destruct (Hf e s He) as (e' & s1 & Hrun & Herase & Hle & Hfresh).
    destruct (IH s1 Hes) as (es' & s2 & Hruns & Herases & Hle' & Hfresh').
    exists (e' :: es'), s2. split.
    + simpl. rewrite (bind_Ok _ _ _ _ _ Hrun).
      rewrite (bind_Ok _ _ _ _ _ Hruns). reflexivity.
    + repeat split.
      * simpl. congruence.
      * lia.
      * simpl. apply Forall_app. split; auto.
        eapply Forall_impl; [exact Hfresh'|]. simpl. intros; lia.
Qed.

Lemma forallb_Forall_wf_height (ps : list Expr) n :
  forallb well_formed ps = true -> list_max (List.map height ps) <= n ->
  Forall (fun p => well_formed p = true /\ height p <= n) ps.
Proof.
  induction ps as [|p ps IH]; simpl; intros Hwf Hh; constructor.
  - apply andb_true_iff in Hwf. split; [tauto | lia].
  - apply andb_true_iff in Hwf. apply IH; [tauto | lia].
Qed.

(** With no user rule, each method rebuilds its argument. *)
Lemma default_translation fuel :
  forall (e : Expr) s,
    well_formed e = true -> height e <= fuel ->
    exists e' s',
      translate_kind (kind e) (SnubaClickhouseRulesTranslator no_rules fuel) e s
      = Ok e' s' /\ copy_of s s' e e'.
Proof.
  unfold SnubaClickhouseRulesTranslator.
  induction fuel as [|n IH]; intros e s Hwf Hh.
  - destruct e; simpl in Hh; lia.
  - assert (IHe : forall e s, well_formed e = true /\ height e <= n ->
              exists e' s',
                translate_expression
                  (translator (concat no_rules default_rules) n) e s
                = Ok e' s' /\ copy_of s s' e e').
    { intros e0 s0 [H1 H2]. rewrite translate_expression_kind. auto. }
    rewrite translate_kind_S.
    destruct e as [i a t c|i a v|i a x|i a f ps|i a f ps|i a c k|i a xs b];
      simpl in Hwf, Hh.
    + exists (Column s a t c), (S s). split; [reflexivity|].
      repeat split; auto. repeat constructor.
    + exists (Literal s a v), (S s). split; [reflexivity|].
      repeat split; auto. repeat constructor.
    + exists (Argument s a x), (S s). split; [reflexivity|].
      repeat split; auto. repeat constructor.
    + destruct (mapM_copies _ _ IHe ps s
                  (forallb_Forall_wf_height ps n Hwf ltac:(lia)))
        as (ps' & s1 & Hrun & Her & Hle & Hfr).
      exists (FunctionCall s1 a f ps'), (S s1). split.
      * unfold map_expression, bind; simpl. unfold bind. rewrite Hrun. reflexivity.
      * repeat split; [simpl; congruence | lia |].
        rewrite oids_FunctionCall. constructor; auto.
    + apply andb_true_iff in Hwf as [Hwf Hps].
      apply andb_true_iff in Hwf as [Hk Hf].
      destruct f as [| | |j b g qs| | |]; try discriminate Hk.
      destruct (IH (FunctionCall j b g qs) s Hf ltac:(lia))
        as (f' & s1 & Hrunf & Herf & Hlef & Hfrf).
      destruct (mapM_copies _ _ IHe ps s1
                  (forallb_Forall_wf_height ps n Hps ltac:(lia)))
        as (ps' & s2 & Hrun & Her & Hle & Hfr).
      exists (CurriedFunctionCall s2 a f' ps'), (S s2). split.
      * unfold map_expression, bind; simpl. unfold bind.
        simpl in Hrunf. rewrite Hrunf.
        rewrite Hrun. reflexivity.
      * repeat split; [simpl in *; congruence | lia |].
        rewrite oids_CurriedFunctionCall. constructor; [lia|].
        apply Forall_app. split; auto.
        eapply Forall_impl; [exact Hfr|]. simpl. intros; lia.
    + apply andb_true_iff in Hwf as [Hc Hk].
      destruct c as [j b t c| | | | | |]; try discriminate Hc.
      destruct k as [|j' b' v| | | | |]; try discriminate Hk.
      destruct n as [|n]; [simpl in Hh; lia|].
      exists (SubscriptableReference (S (S s)) a (Column s b t c)
                (Literal (S s) b' v)), (S (S (S s))).
      split; [reflexivity|].
      repeat split; try lia. unfold oids; simpl.
      repeat (apply List.Forall_cons; [lia|]). apply List.Forall_nil.
    + assert (Hb : height b <= n) by lia.
      destruct (IHe b s (conj Hwf Hb)) as (b' & s1 & Hrun & Her & Hle & Hfr).
      exists (Lambda s1 a xs b'), (S s1). split.
      * unfold map_expression, bind; simpl. unfold bind. rewrite Hrun. reflexivity.
      * repeat split; [simpl; congruence | lia |].
        unfold oids. simpl. constructor; [lia|]. exact Hfr.
Qed.


(** C2 - Default-rule identity with fresh copies: a translator built from no
    user rule returns, for every well-formed expression whose objects already
    exist (identities below the allocation state [s]), a tree equal to the input
    field by field ([erase]) in which no node is the same object as the
    corresponding node of the input (nor as any other node of it). *)
Theorem default_rules_identity_fresh_copies (e : Expr) (s fuel : nat) :
  well_formed e = true ->
  height e <= fuel ->
  Forall (fun i => i < s) (oids e) ->
  exists e' s',
    translate_expression (SnubaClickhouseRulesTranslator no_rules fuel) e s
    = Ok e' s'
    /\ erase e' = erase e
    /\ (forall a b, In a (iter_expression e') -> In b (iter_expression e) ->
        oid_of a <> oid_of b)
    /\ (forall a b,
        In (a, b) (combine (iter_expression e') (iter_expression e)) ->
        oid_of a <> oid_of b).
Proof.
  intros Hwf Hh Hold.
  destruct (default_translation fuel e s Hwf Hh)
    as (e' & s' & Hrun & Her & Hle & Hfresh).
  assert (Hdisj : forall a b, In a (iter_expression e') ->
            In b (iter_expression e) -> oid_of a <> oid_of b).
  { intros a b Ha Hb.
    rewrite List.Forall_forall in Hfresh, Hold.
    specialize (Hfresh (oid_of a) (in_map oid_of _ _ Ha)).
    specialize (Hold (oid_of b) (in_map oid_of _ _ Hb)).
    simpl in *. lia. }
  exists e', s'. unfold SnubaClickhouseRulesTranslator in *.
  rewrite translate_expression_kind. repeat split; auto.
  intros a b Hab. apply Hdisj.
  - eapply in_combine_l; eauto.
  - eapply in_combine_r; eauto.
Qed.

(** The expressions of tests/clickhouse/translator/test_visitor.py, as objects
    number 0 to 3, translated from the allocation state 4. *)
Lemma default_rules_identity_fresh_copies_witness :
  exists e' s',
    translate_expression (SnubaClickhouseRulesTranslator no_rules 2)
      (SubscriptableReference 0 (Some "tags[asd]")
         (Column 1 None None "tags") (Literal 2 None (VStr "release"))) 4
    = Ok e' s'
    /\ erase e'
       = erase (SubscriptableReference 0 (Some "tags[asd]")
                  (Column 1 None None "tags") (Literal 2 None (VStr "release")))
    /\ (forall a b, In a (iter_expression e') ->
        In b (iter_expression
                (SubscriptableReference 0 (Some "tags[asd]")
                   (Column 1 None None "tags")
                   (Literal 2 None (VStr "release")))) ->
        oid_of a <> oid_of b)
    /\ (forall a b,
        In (a, b)
          (combine (iter_expression e')
             (iter_expression
                (SubscriptableReference 0 (Some "tags[asd]")
                   (Column 1 None None "tags")
                   (Literal 2 None (VStr "release"))))) ->
        oid_of a <> oid_of b).
Proof.
  apply (default_rules_identity_fresh_copies
           (SubscriptableReference 0 (Some "tags[asd]")
              (Column 1 None None "tags") (Literal 2 None (VStr "release")))
           4 2).
  - reflexivity.
  - simpl. lia.
  - unfold oids. simpl. repeat (apply List.Forall_cons; [lia|]).
    apply List.Forall_nil.
Defined.


(** ** The error of [__map_expression] is out of reach *)

(** An outcome other than the ValueError of [__map_expression]. *)
Definition mapped {A} (o : Outcome A) : Prop := o <> Raise ValueError_CannotMap.

(** A translator none of whose methods ends with that error on a well-formed
    node of the kind the method is declared for. *)
Definition never_cannot_map (t : SnubaClickhouseTranslator) : Prop :=
  forall (e : Expr) s, well_formed e = true ->
    mapped (translate_expression t e s) /\
    mapped (translate_kind (kind e) t e s).

(** A rule registered for the kind [k] that does not raise the error itself:
    on a well-formed node of kind [k] it ends with it only if the translator
    it was given does. *)
Definition rule_respects (k : Kind) (r : ExpressionMapper) : Prop :=
  forall t, never_cannot_map t ->
    forall e s, kind e = k -> well_formed e = true -> mapped (r e t s).

Definition rules_respect (rules : TranslationRules) : Prop :=
  forall k, Forall (rule_respects k) (rules_of k rules).

Lemma mapped_Raise {A B} x : mapped (@Raise A x) -> mapped (@Raise B x).
Proof. unfold mapped. congruence. Qed.

Lemma mapped_bind {A B} (m : M A) (k : A -> M B) s :
  mapped (m s) -> (forall a s', m s = Ok a s' -> mapped (k a s')) ->
  mapped (bind m k s).
Proof.
  unfold bind. intros Hm Hk.
  destruct (m s) as [a s'|x]; [apply Hk; reflexivity |].
  exact (mapped_Raise x Hm).
Qed.

Lemma mapped_mapM (f : Expr -> M Expr) es :
  (forall e s, In e es -> mapped (f e s)) -> forall s, mapped (mapM f es s).
Proof.
  induction es as [|e es IH]; intros Hf s; simpl.
  - discriminate.
  - apply mapped_bind; [apply Hf; left; reflexivity|].
    intros a s1 _. apply mapped_bind.
    + apply IH. intros; apply Hf; right; assumption.
    + discriminate.
Qed.

Lemma forallb_In_wf (ps : list Expr) p :
  forallb well_formed ps = true -> In p ps -> well_formed p = true.
Proof.
  intros H Hin. rewrite forallb_forall in H. auto.
Qed.

(** The default rule of each kind answers: it returns a node or fails with
    another error, it never declines. *)
Lemma default_rule_answers t :
  never_cannot_map t ->
  forall (e : Expr) d s, well_formed e = true ->
    rules_of (kind e) default_rules = [d] ->
    mapped (d e t s) /\ (forall s', d e t s <> Ok None s').
Proof.
  intros Ht e d s Hwf Hd.
  assert (He : forall p s, well_formed p = true ->
            mapped (translate_expression t p s)).
  { intros p s0 Hp. apply Ht; assumption. }
  destruct e as [i a tb c|i a v|i a x|i a f ps|i a f ps|i a c k|i a xs b];
    simpl in Hd, Hwf; injection Hd as <-.
  - split; [discriminate|]. intros s'. discriminate.
  - split; [discriminate|]. intros s'. discriminate.
  - split; [discriminate|]. intros s'. discriminate.
  - assert (Hps : forall s, mapped (mapM (translate_expression t) ps s)).
    { apply mapped_mapM. intros p s0 Hin. apply He.
      eapply forallb_In_wf; eauto. }
    unfold DefaultFunctionMapper, bind. specialize (Hps s).
    destruct (mapM (translate_expression t) ps s) as [ps' s1|x]; simpl.
    + split; [discriminate|]. intros s'. discriminate.
    + split; [exact (mapped_Raise _ Hps)|]. intros s'. discriminate.
  - apply andb_true_iff in Hwf as [Hwf Hps].
    apply andb_true_iff in Hwf as [Hk Hf].
    destruct f as [| | |j b g qs| | |]; try discriminate Hk.
    pose proof (proj2 (Ht (FunctionCall j b g qs) s Hf)) as Hfun.
    simpl in Hfun.
    unfold DefaultCurriedFunctionMapper, bind.
    destruct (translate_function_call t (FunctionCall j b g qs) s)
      as [f' s1|x]; [|split; [exact (mapped_Raise _ Hfun)|intros; discriminate]].
    assert (Hps' : mapped (mapM (translate_expression t) ps s1)).
    { apply mapped_mapM. intros p s0 Hin. apply He.
      eapply forallb_In_wf; eauto. }
    destruct (mapM (translate_expression t) ps s1) as [ps' s2|x]; simpl.
    + split; [discriminate|]. intros s'. discriminate.
    + split; [exact (mapped_Raise _ Hps')|]. intros s'. discriminate.
  - apply andb_true_iff in Hwf as [Hc Hk].
    destruct c as [j b tb c| | | | | |]; try discriminate Hc.
    destruct k as [|j' b' v| | | | |]; try discriminate Hk.
    pose proof (fun s => proj2 (Ht (Column j b tb c) s eq_refl)) as Hcol.
    pose proof (fun s => proj2 (Ht (Literal j' b' v) s eq_refl)) as Hlit.
    simpl in Hcol, Hlit.
    unfold DefaultSubscriptableMapper, bind. specialize (Hcol s).
    destruct (translate_column t (Column j b tb c) s) as [c' s1|x];
      [|split; [exact (mapped_Raise _ Hcol)|intros; discriminate]].
    unfold assert.
    destruct (isinstance c' KColumn); simpl;
      [|split; [discriminate|intros; discriminate]].
    specialize (Hlit s1).
    destruct (translate_literal t (Literal j' b' v) s1) as [k' s2|x];
      [|split; [exact (mapped_Raise _ Hlit)|intros; discriminate]].
    destruct (isinstance k' KLiteral); simpl;
      split; try discriminate; intros; discriminate.
  - specialize (He b s Hwf).
    unfold DefaultLambdaMapper, bind.
    destruct (translate_expression t b s) as [b' s1|x]; simpl.
    + split; [discriminate|]. intros s'. discriminate.
    + split; [exact (mapped_Raise _ He)|]. intros s'. discriminate.
Qed.

Lemma mapped_first_match (e : Expr) t rules :
  Forall (fun r => forall s, mapped (r e t s)) rules ->
  forall s, mapped (first_match e t rules s).
Proof.
  induction 1 as [|r rules Hr _ IH]; intros s; simpl.
  - discriminate.
  - apply mapped_bind; [apply Hr|].
    intros [e'|] s' _; [discriminate | apply IH].
Qed.

Lemma mapped_map_expression (e : Expr) t user d :
  Forall (fun r => forall s, mapped (r e t s)) user ->
  (forall s, mapped (d e t s) /\ (forall s', d e t s <> Ok None s')) ->
  forall s, mapped (map_expression e t (user ++ [d]) s).
Proof.
  intros Huser Hd s. unfold map_expression, bind.
  rewrite first_match_app.
  pose proof (mapped_first_match e t user Huser s) as Hu.
  destruct (first_match e t user s) as [[e'|] s1|x]; simpl.
  - discriminate.
  - unfold bind. destruct (Hd s1) as [Hm Hn].
    destruct (d e t s1) as [[e'|] s2|x]; simpl.
    + discriminate.
    + exfalso. eapply Hn; reflexivity.
    + exact (mapped_Raise _ Hm).
  - exact (mapped_Raise _ Hu).
Qed.

Lemma default_rules_singleton k : exists d, rules_of k default_rules = [d].
Proof. destruct k; eexists; reflexivity. Qed.

(** C1 (as amended) - Totality guarantee: for every well-formed expression
    and every translator built from rules that do not raise it themselves,
    [translate_expression], that is the [translate_*] method of the class of
    the expression, never ends with the "cannot map" ValueError of
    [__map_expression], whatever the recursion bound: the default rule
    appended for that class always answers.  Nothing is said of a method
    given a node of another class, of an ill-formed tree, or of rules that
    raise the error through the translator: there the error is in reach. *)
Theorem cannot_map_unreachable (rules : TranslationRules) (fuel : nat)
  (e : Expr) (s : nat) :
  rules_respect rules ->
  well_formed e = true ->
  translate_expression (SnubaClickhouseRulesTranslator rules fuel) e s
    <> Raise ValueError_CannotMap
  /\ (forall k, kind e = k ->
        translate_kind k (SnubaClickhouseRulesTranslator rules fuel) e s
        <> Raise ValueError_CannotMap).
Proof.
  intros Hrules Hwf.
  enough (H : never_cannot_map (SnubaClickhouseRulesTranslator rules fuel)).
  { split; [apply H; exact Hwf|]. intros k <-. apply H. exact Hwf. }
  clear e s Hwf.
  unfold SnubaClickhouseRulesTranslator.
  induction fuel as [|n IH]; intros e s Hwf.
  - destruct e; split; discriminate.
  - rewrite translate_expression_kind, translate_kind_S, rules_of_concat.
    destruct (default_rules_singleton (kind e)) as [d Hd]. rewrite Hd.
    assert (mapped (map_expression e
              (translator (concat rules default_rules) n)
              (rules_of (kind e) rules ++ [d]) s)) as Hgoal.
    { apply mapped_map_expression.
      - specialize (Hrules (kind e)).
        eapply Forall_impl; [exact Hrules|]. simpl.
        intros r Hr s0. apply Hr; auto.
      - intros s0. apply default_rule_answers; auto. }
    split; exact Hgoal.
Qed.


Lemma ColumnMapper_respects k a b c d : rule_respects k (ColumnMapper a b c d).
Proof.
  intros t _ e s _ _. unfold ColumnMapper.
  destruct e; try discriminate. case_decide; discriminate.
Qed.

(** The rule set of tests/clickhouse/translator/test_translation.py and a
    function call over two columns. *)
Lemma cannot_map_unreachable_witness :
  translate_expression
    (SnubaClickhouseRulesTranslator
       {| columns := [ColumnMapper "col" None "col2" None;
                      ColumnMapper "cola" None "colb" None];
          literals := []; functions := []; curried_functions := [];
          subscriptables := []; lambdas := []; arguments := [] |} 2)
    (FunctionCall 0 None "someFunc"
       [Column 1 None None "col"; Column 2 None None "col3"]) 3
    <> Raise ValueError_CannotMap
  /\ translate_kind KFunctionCall
    (SnubaClickhouseRulesTranslator
       {| columns := [ColumnMapper "col" None "col2" None;
                      ColumnMapper "cola" None "colb" None];
          literals := []; functions := []; curried_functions := [];
          subscriptables := []; lambdas := []; arguments := [] |} 2)
    (FunctionCall 0 None "someFunc"
       [Column 1 None None "col"; Column 2 None None "col3"]) 3
    <> Raise ValueError_CannotMap.
Proof.
  assert (H : rules_respect
                {| columns := [ColumnMapper "col" None "col2" None;
                               ColumnMapper "cola" None "colb" None];
                   literals := []; functions := []; curried_functions := [];
                   subscriptables := []; lambdas := []; arguments := [] |}).
  { intros k. destruct k; simpl;
      repeat (apply List.Forall_cons; [apply ColumnMapper_respects|]);
      apply List.Forall_nil. }
  destruct (cannot_map_unreachable _ 2
              (FunctionCall 0 None "someFunc"
                 [Column 1 None None "col"; Column 2 None None "col3"]) 3
              H eq_refl) as [H1 H2].
  split; [exact H1 | exact (H2 KFunctionCall eq_refl)].
Defined.

(** C1, counterexample: four runs.
    - The error is in reach of a [translate_*] method: with no user rule,
      [translate_function_call] on a well-formed curried call raises it, for
      the default rule for function calls declines on what is not a
      FunctionCall.
    - It is in reach of [translate_expression] on an ill-formed tree: a
      curried call whose inner function is a column.
    - It is in reach of [translate_expression] on a well-formed column when
      a rule hands the column to [translate_function_call].
    - And a translation that does not end with it need not succeed: with a
      column rule that returns a literal, the default rule for subscriptable
      references fails on its [assert isinstance(column, Column)], whatever
      the recursion bound. *)
Lemma translation_succeeds_counterexample :
  (well_formed (CurriedFunctionCall 0 None (FunctionCall 1 None "f" []) [])
   = true
   /\ translate_function_call (SnubaClickhouseRulesTranslator no_rules 1)
        (CurriedFunctionCall 0 None (FunctionCall 1 None "f" []) []) 2
      = Raise ValueError_CannotMap)
  /\ (well_formed (CurriedFunctionCall 0 None (Column 1 None None "c") [])
      = false
      /\ translate_expression (SnubaClickhouseRulesTranslator no_rules 2)
           (CurriedFunctionCall 0 None (Column 1 None None "c") []) 2
         = Raise ValueError_CannotMap)
  /\ (well_formed (Column 0 None None "c") = true
      /\ translate_expression
           (SnubaClickhouseRulesTranslator
              {| columns := [ColumnAsFunctionMapper "c"];
                 literals := []; functions := []; curried_functions := [];
                 subscriptables := []; lambdas := []; arguments := [] |} 2)
           (Column 0 None None "c") 1
         = Raise ValueError_CannotMap)
  /\ (well_formed (SubscriptableReference 0 (Some "tags[release]")
                     (Column 1 None None "tags")
                     (Literal 2 None (VStr "release"))) = true
      /\ translate_expression
           (SnubaClickhouseRulesTranslator
              {| columns := [ColumnToLiteralMapper "tags" (VStr "tags")];
                 literals := []; functions := []; curried_functions := [];
                 subscriptables := []; lambdas := []; arguments := [] |} 2)
           (SubscriptableReference 0 (Some "tags[release]")
              (Column 1 None None "tags") (Literal 2 None (VStr "release")))
           3
         = Raise AssertionError
      /\ ~ (exists fuel e' s',
             translate_expression
               (SnubaClickhouseRulesTranslator
                  {| columns := [ColumnToLiteralMapper "tags" (VStr "tags")];
                     literals := []; functions := [];
                     curried_functions := []; subscriptables := [];
                     lambdas := []; arguments := [] |} fuel)
               (SubscriptableReference 0 (Some "tags[release]")
                  (Column 1 None None "tags")
                  (Literal 2 None (VStr "release"))) 3
             = Ok e' s')).
Proof.
  split; [split; reflexivity|].
  split; [split; reflexivity|].
  split; [split; reflexivity|].
  split; [reflexivity|]. split; [reflexivity|].
  intros (fuel & e' & s' & H).
  destruct fuel as [|[|n]]; discriminate H.
Qed.


(** ** Composition of rule sets *)


(** A rule declines on a node: it returns [None] and builds nothing. *)
Definition declines (e : Expr) (t : SnubaClickhouseTranslator)
  (r : ExpressionMapper) : Prop :=
  forall s, r e t s = Ok None s.

Lemma first_match_declined e t rules :
  Forall (declines e t) rules -> forall s, first_match e t rules s = Ok None s.
Proof.
  induction 1 as [|r rules Hr _ IH]; intros s; simpl.
  - reflexivity.
  - unfold bind. rewrite Hr. apply IH.
Qed.






(** Two rows of tests/clickhouse/translator/test_translation.py, and the
    scenario of the composition: a call over col and cola is rewritten in one
    pass by the rules of both sets. *)
Example test_translation_unmatched :
  translate_expression
    (SnubaClickhouseRulesTranslator
       (concat no_rules
          {| columns := [ColumnMapper "col" None "col2" None];
             literals := []; functions := []; curried_functions := [];
             subscriptables := []; lambdas := []; arguments := [] |}) 1)
    (Column 0 None None "col3") 1
  = Ok (Column 1 None None "col3") 2.
Proof. reflexivity. Qed.

Example test_translation_matched :
  translate_expression
    (SnubaClickhouseRulesTranslator
       (concat no_rules
          {| columns := [ColumnMapper "col" None "col2" None];
             literals := []; functions := []; curried_functions := [];
             subscriptables := []; lambdas := []; arguments := [] |}) 1)
    (Column 0 None None "col") 1
  = Ok (Column 1 None None "col2") 2.
Proof. reflexivity. Qed.

Example test_translation_one_pass :
  translate_expression
    (SnubaClickhouseRulesTranslator
       (concat
          {| columns := [ColumnMapper "col" None "col2" None];
             literals := []; functions := []; curried_functions := [];
             subscriptables := []; lambdas := []; arguments := [] |}
          {| columns := [ColumnMapper "cola" None "colb" None];
             literals := []; functions := []; curried_functions := [];
             subscriptables := []; lambdas := []; arguments := [] |}) 2)
    (FunctionCall 0 None "someFunc"
       [Column 1 None None "col"; Column 2 None None "cola";
        Column 3 None None "col3"]) 4
  = Ok (FunctionCall 7 None "someFunc"
          [Column 4 None None "col2"; Column 5 None None "colb";
           Column 6 None None "col3"]) 8.
Proof. reflexivity. Qed.

(** ** The inner function of a curried call *)

Lemma bind_Ok_inv {A B} (m : M A) (k : A -> M B) s b s' :
  bind m k s = Ok b s' -> exists a s1, m s = Ok a s1 /\ k a s1 = Ok b s'.
Proof.
  unfold bind. destruct (m s) as [a s1|x]; [eauto | discriminate].
Qed.

Lemma first_match_Some_inv e t rules s e' s' :
  first_match e t rules s = Ok (Some e') s' ->
  exists r s0, In r rules /\ r e t s0 = Ok (Some e') s'.
Proof.
  revert s. induction rules as [|r rules IH]; intros s; simpl.
  - discriminate.
  - intros H. apply bind_Ok_inv in H as ([x|] & s1 & Hr & H).
    + injection H as <- <-. exists r, s. split; [left; reflexivity|exact Hr].
    + destruct (IH s1 H) as (r' & s0 & Hin & Hr').
      exists r', s0. split; [right; exact Hin|exact Hr'].
Qed.

Lemma map_expression_Ok_inv e t rules s e' s' :
  map_expression e t rules s = Ok e' s' ->
  exists r s0, In r rules /\ r e t s0 = Ok (Some e') s'.
Proof.
  unfold map_expression. intros H.
  apply bind_Ok_inv in H as ([x|] & s1 & Hfm & H); [|discriminate].
  injection H as <- <-. eapply first_match_Some_inv; eauto.
Qed.

(** A function rule that returns function calls only, as the return type of
    [translate_function_call] says. *)
Definition function_valued (r : ExpressionMapper) : Prop :=
  forall e t s e' s', r e t s = Ok (Some e') s' ->
    isinstance e' KFunctionCall = true.

(** A curried-function rule whose results hold a function call as inner
    function. *)
Definition curried_valued (r : ExpressionMapper) : Prop :=
  forall e t s e' s', r e t s = Ok (Some e') s' ->
    exists i a f ps, e' = CurriedFunctionCall i a f ps
                     /\ isinstance f KFunctionCall = true.

Lemma DefaultFunctionMapper_valued : function_valued DefaultFunctionMapper.
Proof.
  intros e t s e' s' H. unfold DefaultFunctionMapper in H.
  destruct e; try discriminate H.
  apply bind_Ok_inv in H as (ps & s1 & _ & H).
  injection H as <- <-. reflexivity.
Qed.

Lemma FunctionRenameMapper_valued from_name to_name :
  function_valued (FunctionRenameMapper from_name to_name).
Proof.
  intros e t s e' s' H. unfold FunctionRenameMapper in H.
  destruct e; try discriminate H.
  case_decide; [|discriminate H].
  apply bind_Ok_inv in H as (ps & s1 & _ & H).
  injection H as <- <-. reflexivity.
Qed.

(** X24 - What the typing of the rules gives: when every function rule
    returns function calls and every curried-function rule returns curried
    calls over a function call, the curried call returned by
    [translate_curried_function_call] has a function call as inner function,
    whatever the other rules are. *)
Theorem typed_rules_keep_inner_function (rules : TranslationRules)
  (fuel : nat) (e e' : Expr) (s s' : nat) :
  Forall function_valued (functions rules) ->
  Forall curried_valued (curried_functions rules) ->
  translate_curried_function_call
    (SnubaClickhouseRulesTranslator rules fuel) e s = Ok e' s' ->
  exists i a f ps, e' = CurriedFunctionCall i a f ps
                   /\ isinstance f KFunctionCall = true.
Proof.
  intros Hfun Hcur H. unfold SnubaClickhouseRulesTranslator in H.
  destruct fuel as [|n]; [discriminate H|].
  simpl in H. unfold visit in H. simpl in H.
  apply map_expression_Ok_inv in H as (r & s0 & Hin & Hr).
  apply in_app_or in Hin as [Hin|[<-|[]]].
  - rewrite List.Forall_forall in Hcur. eapply Hcur; eauto.
  - unfold DefaultCurriedFunctionMapper in Hr.
    destruct e as [| | | |i a f ps| |]; try discriminate Hr.
    apply bind_Ok_inv in Hr as (f' & s1 & Hf & Hr).
    apply bind_Ok_inv in Hr as (ps' & s2 & _ & Hr).
    injection Hr as <- <-.
    exists s2, a, f', ps'. split; [reflexivity|].
    destruct n as [|n]; [discriminate Hf|].
    simpl in Hf. unfold visit in Hf. simpl in Hf.
    apply map_expression_Ok_inv in Hf as (r & s3 & Hin & Hr).
    apply in_app_or in Hin as [Hin|[<-|[]]].
    + rewrite List.Forall_forall in Hfun. eapply Hfun; eauto.
    + eapply DefaultFunctionMapper_valued; eauto.
Qed.

(** A rule that renames the inner function f to g. *)
Lemma typed_rules_keep_inner_function_witness :
  exists i a f ps,
    CurriedFunctionCall 5 None (FunctionCall 4 None "g" [Column 3 None None "c"])
      []
    = CurriedFunctionCall i a f ps
    /\ isinstance f KFunctionCall = true.
Proof.
  apply (typed_rules_keep_inner_function
           {| columns := []; literals := [];
              functions := [FunctionRenameMapper "f" "g"];
              curried_functions := []; subscriptables := []; lambdas := [];
              arguments := [] |} 3
           (CurriedFunctionCall 0 None
              (FunctionCall 1 None "f" [Column 2 None None "c"]) [])
           _ 3 6).
  - apply List.Forall_cons; [apply FunctionRenameMapper_valued|].
    apply List.Forall_nil.
  - apply List.Forall_nil.
  - reflexivity.
Defined.


End RulesBasedSpec.

(** * Properties of the matcher and of the UUID processor *)

Module MatchersSpec.
Import Matchers.
Local Open Scope match_scope.

(** Induction on patterns, through the lists and the optional descriptors
    they hold. *)
Lemma Pattern_nested_ind (P : Pattern -> Prop) :
  (forall value, P (String value)) ->
  P AnyOptionalString ->
  (forall alternatives, Forall P alternatives -> P (Or alternatives)) ->
  (forall name inner, P inner -> P (Param name inner)) ->
  (forall table_name column_name,
      (forall q, table_name = Some q -> P q) ->
      (forall q, column_name = Some q -> P q) ->
      P (ColumnMatch table_name column_name)) ->
  (forall value, (forall q, value = Some q -> P q) -> P (LiteralMatch value)) ->
  (forall function_name parameters with_optionals,
      P function_name ->
      (forall shapes, parameters = Some shapes -> Forall P shapes) ->
      P (FunctionCallMatch function_name parameters with_optionals)) ->
  forall p, P p.
Proof.
  intros HS HA HO HP HC HL HF. fix IH 1.
  intros [value| |alternatives|name inner|t c|v|f ps w].
  - apply HS.
  - apply HA.
  - apply HO. induction alternatives as [|a l IHl]; constructor;
      [apply IH | exact IHl].
  - apply HP, IH.
  - apply HC.
    + destruct t as [q|]; intros q' E; [|discriminate E].
      injection E as <-. apply IH.
    + destruct c as [q|]; intros q' E; [|discriminate E].
      injection E as <-. apply IH.
  - apply HL. destruct v as [q|]; intros q' E; [|discriminate E].
    injection E as <-. apply IH.
  - apply HF; [apply IH|].
    destruct ps as [l|]; intros l' E; [|discriminate E].
    injection E as <-.
    induction l as [|a l IHl]; constructor; [apply IH | exact IHl].
Qed.

(** A call of [match] that ends without an exception. *)
Definition returns (p : Pattern) : Prop :=
  forall n, exists r, matches p n = Return r.

Lemma optional_field_returns (descriptor : option Pattern)
  (node : Node) :
  (forall q, descriptor = Some q -> returns q) ->
  exists r, optional_field descriptor (fun q => matches q node) = Return r.
Proof.
  intros H. destruct descriptor as [q|]; simpl; [|eauto].
  apply (H q eq_refl).
Qed.

(** The loop over the parameter shapes stays inside the tuple: it starts
    after the comparison of the two lengths. *)
Lemma parameters_loop_returns (ps : list Exp) (qs : list Pattern) :
  Forall returns qs ->
  forall index acc,
    index + length qs <= length ps ->
    exists r,
      (fix all (qs : list Pattern) (index : nat) (acc : MatchResult)
         : Result (option MatchResult) :=
         match qs with
         | [] => Return (Some acc)
         | q :: qs' =>
             e <- getitem ps index ;;
             p_result <- matches q (NExpression e) ;;
             match p_result with
             | Some r' => all qs' (S index) (acc ∪ r')
             | None => Return None
             end
         end) qs index acc = Return r.
Proof.
  induction 1 as [|q qs Hq _ IH]; intros index acc Hlen; [eauto|].
  simpl in Hlen. unfold getitem.
  destruct (ps !! index) as [e|] eqn:He.
  2:{ apply lookup_ge_None_1 in He. lia. }
  simpl. destruct (Hq (NExpression e)) as [[r'|] ->]; simpl; [|eauto].
  apply IH. lia.
Qed.

Lemma matches_returns (p : Pattern) : returns p.
Proof.
  induction p as [value| |alternatives IH|name inner IH|t c IHt IHc|v IH
                  |f ps w IHf IHps] using Pattern_nested_ind; intros n.
  - destruct n as [[s|]| |]; simpl; try case_decide; eauto.
  - destruct n; simpl; eauto.
  - simpl. induction IH as [|a l Ha _ IHl]; [eauto|].
    destruct (Ha n) as [[r|] ->]; simpl; eauto.
  - simpl. destruct (IH n) as [[r|] ->]; simpl; eauto.
  - simpl. destruct n as [| |[i a tb cn| | | | | |]]; simpl; eauto.
    destruct (optional_field_returns t (NString tb) IHt) as [[r1|] ->];
      simpl; [|eauto].
    destruct (optional_field_returns c (NString (Some cn)) IHc)
      as [[r2|] ->]; simpl; eauto.
  - simpl. destruct n as [| |[|i a val| | | | |]]; simpl; eauto.
    apply optional_field_returns. exact IH.
  - simpl. destruct n as [| |[| | |i a name params| | |]]; simpl; eauto.
    destruct (IHf (NString (Some name))) as [[r|] ->]; simpl; [|eauto].
    destruct ps as [shapes|]; [|eauto].
    destruct w.
    + destruct (Nat.ltb (length params) (length shapes)) eqn:Hlen; [eauto|].
      apply Nat.ltb_ge in Hlen.
      apply parameters_loop_returns; [apply IHps; reflexivity | simpl; lia].
    + destruct (Nat.eqb (length shapes) (length params)) eqn:Hlen; simpl;
        [|eauto].
      apply Nat.eqb_eq in Hlen.
      apply parameters_loop_returns; [apply IHps; reflexivity | simpl; lia].
Qed.




End MatchersSpec.

Module UUIDColumnProcessorSpec.
Import Matchers conditions UUIDColumnProcessor.
Local Open Scope match_scope.

Lemma new_fn_params_spec str uuid_UUID (ps : list Exp) :
  new_fn_params str uuid_UUID ps
  = if forallb (fun p => isinstance p KLiteral) ps
    then Some (List.map (parse_uuid str uuid_UUID) ps)
    else None.
Proof.
  induction ps as [|p ps IH]; simpl; [reflexivity|].
  destruct (isinstance p KLiteral); simpl; [|reflexivity].
  rewrite IH. destruct (forallb _ ps); reflexivity.
Qed.

(** The call [replaceAll(toString(column), ...)]: a column wrapped in
    [toString], itself the first parameter of [replaceAll]; [optionals] are
    the other parameters of [replaceAll], as in
    [replaceAll(toString(event_id), '-', '')]. *)
Definition wrapped_column (outer_alias inner_alias : option string)
  (column : Exp) (optionals : list Exp) : Exp :=
  FunctionCall tt outer_alias "replaceAll"
    (FunctionCall tt inner_alias "toString" [column] :: optionals).

(** A pattern that is one of several strings matches the strings of the
    list. *)
Lemma matches_Or_String (l : list string) (s : string) :
  matches (Or (List.map String l)) (NString (Some s))
  = Return (if bool_decide (s ∈ l) then Some ∅ else None).
Proof.
  induction l as [|a l IH]; [reflexivity|].
  change (matches (Or (List.map String (a :: l))) (NString (Some s)))
    with (ret <- matches (String a) (NString (Some s)) ;;
          match ret with
          | Some r => Return (Some r)
          | None => matches (Or (List.map String l)) (NString (Some s))
          end).
  rewrite IH. cbn [matches bind].
  destruct (decide (s = a)) as [->|Hs]; cbn [bind].
  - rewrite (bool_decide_eq_true_2 (a ∈ a :: l)) by apply list_elem_of_here.
    reflexivity.
  - destruct (bool_decide (s ∈ l)) eqn:Hl.
    + apply bool_decide_eq_true_1 in Hl.
      rewrite (bool_decide_eq_true_2 (s ∈ a :: l))
        by (apply list_elem_of_further, Hl).
      reflexivity.
    + apply bool_decide_eq_false_1 in Hl.
      rewrite (bool_decide_eq_false_2 (s ∈ a :: l)); [reflexivity|].
      intros Hin. apply elem_of_cons in Hin as [?|?]; contradiction.
Qed.

(** The loop of a call shape over its parameter shapes, from the position
    [index] on. *)
Fixpoint match_parameters (ps : list Exp) (qs : list Pattern) (index : nat)
  (acc : MatchResult) : Result (option MatchResult) :=
  match qs with
  | [] => Return (Some acc)
  | q :: qs' =>
      e <- getitem ps index ;;
      p_result <- matches q (NExpression e) ;;
      match p_result with
      | Some r' => match_parameters ps qs' (S index) (acc ∪ r')
      | None => Return None
      end
  end.

(** One step of [match] for a call shape given a call. *)
Lemma matches_call (function_name : Pattern) (shapes : list Pattern)
  (with_optionals : bool) (alias : option string) (name : string)
  (ps : list Exp) :
  matches (FunctionCallMatch function_name (Some shapes) with_optionals)
    (NExpression (FunctionCall tt alias name ps))
  = (partial <- matches function_name (NString (Some name)) ;;
     match partial with
     | None => Return None
     | Some r =>
         if (if with_optionals
             then Nat.ltb (length ps) (length shapes)
             else negb (Nat.eqb (length shapes) (length ps)))
         then Return None
         else match_parameters ps shapes 0 r
     end).
Proof.
  cbn [matches isinstance_node isinstance kind negb function_name_of
       parameters_of bind].
  destruct (matches function_name (NString (Some name))) as [[r|]|x];
    try reflexivity.
  destruct (if with_optionals then _ else _); [reflexivity|].
  generalize 0 r. induction shapes as [|q qs IH]; intros index acc;
    [reflexivity|].
  cbn [match_parameters]. unfold bind at 1 3.
  destruct (getitem ps index) as [e|x]; [|reflexivity].
  unfold bind. destruct (matches q (NExpression e)) as [[r'|]|x];
    try reflexivity.
  apply IH.
Qed.

(** One step of [match] for an alternative. *)
Lemma matches_Or_cons (a : Pattern) (l : list Pattern) (n : Node) :
  matches (Or (a :: l)) n
  = (ret <- matches a n ;;
     match ret with
     | Some r => Return (Some r)
     | None => matches (Or l) n
     end).
Proof. reflexivity. Qed.

Section Shapes.

Variable IN NOT_IN : string.
Variable FUNCTION_TO_OPERATOR : list string.
Variable uuid_columns : gset string.

Lemma uuid_column_match_spec (column_name : string) :
  column_name ∈ uuid_columns ->
  matches (uuid_column_match uuid_columns) (NString (Some column_name))
  = Return (Some ∅).
Proof using Type.
  intros Hin. unfold uuid_column_match. rewrite matches_Or_String.
  rewrite bool_decide_eq_true_2; [reflexivity|].
  apply elem_of_elements. exact Hin.
Qed.

(** The wrapped column matches the pattern whatever its aliases and the
    other parameters of [replaceAll], and the column is the only capture. *)
Lemma formatted_uuid_pattern_spec (suffix : string)
  (outer_alias inner_alias column_alias table_name : option string)
  (column_name : string) (optionals : list Exp) :
  column_name ∈ uuid_columns ->
  matches (formatted_uuid_pattern uuid_columns suffix)
    (NExpression
       (wrapped_column outer_alias inner_alias
          (Column tt column_alias table_name column_name) optionals))
  = Return
      (Some {[ "formatted_uuid_column" +:+ suffix
               := NExpression
                    (Column tt column_alias table_name column_name) ]}).
Proof using Type.
  intros Hin. unfold formatted_uuid_pattern, wrapped_column.
  cbn -[String.app uuid_column_match].
  rewrite !decide_True by reflexivity.
  rewrite (uuid_column_match_spec _ Hin). cbn [bind].
  rewrite !(left_id_L ∅ (∪)), insert_empty. reflexivity.
Qed.

(** The IN pattern on an IN or NOT IN condition over a wrapped UUID column
    and a call of [tuple]: the captures are the column and the call. *)
Lemma uuid_in_condition_spec (exp_alias : option string) (op : string)
  (outer_alias inner_alias column_alias table_name : option string)
  (column_name : string) (optionals : list Exp)
  (tuple_alias : option string) (parameters : list Exp) :
  op = IN \/ op = NOT_IN ->
  column_name ∈ uuid_columns ->
  matches (uuid_in_condition IN NOT_IN uuid_columns)
    (NExpression
       (FunctionCall tt exp_alias op
          [wrapped_column outer_alias inner_alias
             (Column tt column_alias table_name column_name) optionals;
           FunctionCall tt tuple_alias "tuple" parameters]))
  = Return
      (Some ({[ "formatted_uuid_column"
                := NExpression
                     (Column tt column_alias table_name column_name) ]}
             ∪ {[ "params"
                  := NExpression
                       (FunctionCall tt tuple_alias "tuple" parameters) ]})).
Proof using Type.
  intros Hop Hin. unfold uuid_in_condition.
  pose proof (matches_Or_String [IN; NOT_IN] op) as Hname.
  rewrite bool_decide_eq_true_2 in Hname
    by (destruct Hop as [-> | ->];
        [apply list_elem_of_here
        |apply list_elem_of_further, list_elem_of_here]).
  cbn [List.map] in Hname.
  pose proof (formatted_uuid_pattern_spec "" outer_alias inner_alias
                column_alias table_name column_name optionals Hin) as Hlhs.
  change ("formatted_uuid_column" +:+ "") with "formatted_uuid_column"
    in Hlhs.
  rewrite matches_call, Hname.
  cbn [bind length Nat.eqb negb match_parameters getitem lookup list_lookup].
  rewrite Hlhs.
  cbn -[union singletonM insert].
  rewrite decide_True by reflexivity. cbn [bind].
  rewrite (left_id_L ∅ (∪)), insert_empty. reflexivity.
Qed.

End Shapes.

(** C6 - UUID rewrite of IN conditions: take a condition [IN] or [NOT IN]
    whose left side is [replaceAll(toString(column), ...)] for a column of
    the configured UUID columns, whatever the aliases and the other
    parameters of [replaceAll], and whose right side is a call of [tuple].
    If a parameter of the tuple is not a literal, [process_condition]
    returns the condition as it is.  Otherwise it returns the same condition
    function, under the same alias, applied to the bare column (the column
    without alias) and to the tuple call in which every literal is replaced
    by [parse_uuid] of it: a literal holding the canonical string when its
    value parses as a UUID, the literal itself when it does not. *)
Theorem uuid_in_condition_rewrite
  (IN NOT_IN : string) (FUNCTION_TO_OPERATOR : list string)
  (str : LiteralValue -> string) (uuid_UUID : string -> option string)
  (uuid_columns : gset string)
  (exp_alias : option string) (op : string)
  (outer_alias inner_alias column_alias table_name : option string)
  (column_name : string) (optionals : list Exp)
  (tuple_alias : option string) (parameters : list Exp) :
  op = IN \/ op = NOT_IN ->
  column_name ∈ uuid_columns ->
  let exp :=
    FunctionCall tt exp_alias op
      [wrapped_column outer_alias inner_alias
         (Column tt column_alias table_name column_name) optionals;
       FunctionCall tt tuple_alias "tuple" parameters] in
  process_condition IN NOT_IN FUNCTION_TO_OPERATOR str uuid_UUID uuid_columns
    exp
  = Return
      (if forallb (fun p => isinstance p KLiteral) parameters
       then FunctionCall tt exp_alias op
              [Column tt None table_name column_name;
               FunctionCall tt tuple_alias "tuple"
                 (List.map (parse_uuid str uuid_UUID) parameters)]
       else exp)
  /\ (forall a v,
        parse_uuid str uuid_UUID (Literal tt a v)
        = match uuid_UUID (str v) with
          | Some canonical => Literal tt a (VStr canonical)
          | None => Literal tt a v
          end).
Proof.
  intros Hop Hin exp. split; [|reflexivity].
  subst exp. unfold process_condition.
  rewrite (uuid_in_condition_spec IN NOT_IN uuid_columns exp_alias op
             outer_alias inner_alias column_alias table_name column_name
             optionals tuple_alias parameters Hop Hin).
  unfold expression.
  rewrite lookup_union_l by (apply lookup_singleton_ne; discriminate).
  rewrite lookup_singleton_eq.
  rewrite lookup_union_r by (apply lookup_singleton_ne; discriminate).
  rewrite lookup_singleton_eq.
  rewrite new_fn_params_spec.
  destruct (forallb _ parameters); reflexivity.
Qed.

(** Python's [str] on the values that are strings. *)
Definition str_example (v : LiteralValue) : string :=
  match v with VStr s => s | _ => "" end.

(** [uuid.UUID] on two strings: one that parses, one that does not. *)
Definition uuid_example (s : string) : option string :=
  if decide (s = "a7d67cf796774551a95be6543cacd459")
  then Some "a7d67cf7-9677-4551-a95b-e6543cacd459"
  else None.

(** [replaceAll(toString(event_id), '-', '') IN tuple('a7d6...', 'deadbeef')]:
    the first literal is a UUID, the second one is not. *)
Definition in_condition_example : Exp :=
  FunctionCall tt None "in"
    [FunctionCall tt None "replaceAll"
       [FunctionCall tt None "toString" [Column tt None None "event_id"];
        Literal tt None (VStr "-"); Literal tt None (VStr "")];
     FunctionCall tt None "tuple"
       [Literal tt None (VStr "a7d67cf796774551a95be6543cacd459");
        Literal tt None (VStr "deadbeef")]].

Lemma uuid_in_condition_rewrite_witness :
  process_condition "in" "notIn" ["eq"; "in"; "notIn"] str_example
    uuid_example {["event_id"]} in_condition_example
  = Return
      (FunctionCall tt None "in"
         [Column tt None None "event_id";
          FunctionCall tt None "tuple"
            [Literal tt None (VStr "a7d67cf7-9677-4551-a95b-e6543cacd459");
             Literal tt None (VStr "deadbeef")]]).
Proof.
  refine (proj1 (uuid_in_condition_rewrite "in" "notIn" ["eq"; "in"; "notIn"]
            str_example uuid_example {["event_id"]} None "in" None None None
            None "event_id"
            [Literal tt None (VStr "-"); Literal tt None (VStr "")] None
            [Literal tt None (VStr "a7d67cf796774551a95be6543cacd459");
             Literal tt None (VStr "deadbeef")] _ _)).
  - left. reflexivity.
  - apply elem_of_singleton. reflexivity.
Defined.

(** A parameter of the tuple that is not a literal: nothing is rewritten. *)
Example uuid_in_condition_not_literal :
  let exp :=
    FunctionCall tt None "notIn"
      [FunctionCall tt None "replaceAll"
         [FunctionCall tt None "toString" [Column tt None None "event_id"];
          Literal tt None (VStr "-"); Literal tt None (VStr "")];
       FunctionCall tt None "tuple"
         [FunctionCall tt None "toLower"
            [Literal tt None (VStr "A7D67CF796774551A95BE6543CACD459")]]] in
  process_condition "in" "notIn" ["eq"; "in"; "notIn"] str_example
    uuid_example {["event_id"]} exp
  = Return exp.
Proof. vm_compute. reflexivity. Qed.

End UUIDColumnProcessorSpec.

(** * Properties of the post-replacement consistency enforcer *)

Module ReplacedGroupsSpec.
Import Matchers conditions ReplacedGroups.

(** The condition [assumeNotNull(group_id) NOT IN (ids...)] built by the
    processor. *)
Definition group_id_not_in (NOT_IN : string) (ids : list Z) : Exp :=
  not_in_condition NOT_IN None
    (FunctionCall tt None "assumeNotNull" [Column tt None None "group_id"])
    (List.map (fun p => Literal tt None (VInt p)) ids).

(** The processor is activated when the configuration value is not 0. *)
Definition activated (env : Environment) : bool :=
  negb (Z.eqb (consistency_enforcer_processor_enabled env) 0).

(** An environment for the examples: projects 1, excluded groups [ids]. *)
Definition example_environment (turbo : bool) (enabled : Z) (ids : list Z)
  : Environment :=
  {| get_turbo := turbo;
     consistency_enforcer_processor_enabled := enabled;
     get_project_ids_in_query := fun _ _ => Some [1%Z];
     get_projects_query_flags := fun _ _ => Some (false, ids);
     max_group_ids_exclude := 2 |}.

Definition example_query : Query :=
  {| ast_condition := []; legacy_conditions := []; final := false |}.

Definition example_is_condition (c : Legacy) : bool :=
  match c with
  | LList [_; LStr _; _] => true
  | _ => false
  end.

(** C7 - Consistency enforcer bound: when the lookup reports final = false
    and a non-empty set of excluded groups, then
    - if the groups are more than [max_group_ids_exclude], the processor
      decides FINAL = true and adds no condition (and sets FINAL when it is
      activated);
    - otherwise it decides FINAL = false and adds exactly one condition
      [group_id NOT IN] over those ids to the condition tree (and, when it
      is activated, the same condition to the legacy conditions). *)
Theorem consistency_enforcer_bound
  (NOT_IN : string) (is_condition : Legacy -> bool) (project_column : string)
  (replacer_state_name : option string) (env : Environment) (query : Query)
  (project_ids exclude_group_ids : list Z) :
  get_turbo env = false ->
  get_project_ids_in_query env query project_column = Some project_ids ->
  project_ids <> [] ->
  get_projects_query_flags env project_ids replacer_state_name
  = Some (false, exclude_group_ids) ->
  exclude_group_ids <> [] ->
  let r := process_query NOT_IN is_condition project_column
             replacer_state_name env query in
  exists d,
    decide_consistency NOT_IN replacer_state_name env project_ids query
    = Some d /\
    status r = Returned /\
    if (max_group_ids_exclude env <? Z.of_nat (length exclude_group_ids))%Z
    then
      decided_final d = true /\ condition_to_add d = None
      /\ ast_condition (query_after r) = ast_condition query
      /\ legacy_conditions (query_after r) = legacy_conditions query
      /\ (activated env = true -> final (query_after r) = true)
    else
      decided_final d = false
      /\ condition_to_add d
         = Some (LList [group_id_lhs; LStr "NOT IN";
                        LList (List.map LInt exclude_group_ids)])
      /\ ast_condition (query_after r)
         = ast_condition query ++ [group_id_not_in NOT_IN exclude_group_ids]
      /\ (activated env = true ->
          final (query_after r) = false
          /\ legacy_conditions (query_after r)
             = legacy_conditions query
               ++ [LList [group_id_lhs; LStr "NOT IN";
                          LList (List.map LInt exclude_group_ids)]]).
Proof.
  intros Hturbo Hids Hne Hflags Hex r. subst r.
  unfold process_query, decide_consistency, activated.
  rewrite Hturbo, Hids, Hflags.
  destruct project_ids as [|p ps]; [congruence|].
  destruct exclude_group_ids as [|g gs]; [congruence|].
  cbn [negb andb]. rewrite bool_decide_eq_false_2 by discriminate.
  cbn [negb andb].
  destruct (max_group_ids_exclude env <? Z.of_nat (length (g :: gs)))%Z;
    (eexists; split; [reflexivity|]);
    destruct (negb (consistency_enforcer_processor_enabled env =? 0)%Z);
    unfold compare_with_extension; cbn -[List.map existing_groups_conditions];
    repeat match goal with
           | |- context [if ?b then _ else _] => destruct b
           end;
    cbn -[List.map]; repeat split; auto; discriminate.
Qed.

(** The scenario of the spec: a limit of 2, 3 excluded groups. *)
Lemma consistency_enforcer_bound_witness :
  exists d,
    decide_consistency "notIn" None (example_environment false 1 [7; 8; 9]%Z)
      [1%Z] example_query = Some d
    /\ status (process_query "notIn" example_is_condition "project_id" None
                 (example_environment false 1 [7; 8; 9]%Z) example_query)
       = Returned
    /\ decided_final d = true
    /\ condition_to_add d = None
    /\ ast_condition
         (query_after (process_query "notIn" example_is_condition "project_id"
                         None (example_environment false 1 [7; 8; 9]%Z)
                         example_query)) = []
    /\ legacy_conditions
         (query_after (process_query "notIn" example_is_condition "project_id"
                         None (example_environment false 1 [7; 8; 9]%Z)
                         example_query)) = []
    /\ (true = true ->
        final
          (query_after (process_query "notIn" example_is_condition
                          "project_id" None
                          (example_environment false 1 [7; 8; 9]%Z)
                          example_query)) = true).
Proof.
  apply (consistency_enforcer_bound "notIn" example_is_condition "project_id"
           None (example_environment false 1 [7; 8; 9]%Z) example_query
           [1%Z] [7; 8; 9]%Z).
  - reflexivity.
  - reflexivity.
  - discriminate.
  - reflexivity.
  - discriminate.
Defined.

(** The second scenario of the spec: a limit of 2 and one excluded group; the
    processor is activated. *)
Example consistency_enforcer_within_limit :
  process_query "notIn" example_is_condition "project_id" None
    (example_environment false 1 [7%Z]) example_query
  = {| status := Returned;
       query_after :=
         {| ast_condition := [group_id_not_in "notIn" [7%Z]];
            legacy_conditions :=
              [LList [group_id_lhs; LStr "NOT IN"; LList [LInt 7]]];
            final := false |};
       events := [GetProjectsQueryFlags [1%Z] None] |}.
Proof. reflexivity. Qed.

(** C8 - Shadow mode, the run that mutates the query: the processor is off,
    the query has one project and no condition, and the lookup reports
    final = false with one excluded group, within the limit of 2.  The call
    [query.add_condition_to_ast] of line 75 comes before the test
    [if activated] of line 87, which guards [set_final] and
    [add_conditions]: the query that [process_query] leaves has the condition
    [group_id NOT IN (7)] in its condition tree, while its legacy conditions
    and its FINAL flag are those it had; the comparison then reports a
    mismatch on the group ids. *)
Theorem shadow_mode_mutates_ast :
  consistency_enforcer_processor_enabled (example_environment false 0 [7%Z])
  = 0%Z
  /\ process_query "notIn" example_is_condition "project_id" None
       (example_environment false 0 [7%Z]) example_query
     = {| status := Returned;
          query_after :=
            {| ast_condition :=
                 [FunctionCall tt None "notIn"
                    [FunctionCall tt None "assumeNotNull"
                       [Column tt None None "group_id"];
                     FunctionCall tt None "tuple" [Literal tt None (VInt 7)]]];
               legacy_conditions := [];
               final := false |};
          events :=
            [GetProjectsQueryFlags [1%Z] None;
             MetricsIncrement "mismatch.group_id"
               [("extension", "False"); ("processor", "True")];
             LoggerWarning
               "Discrepancy between project_extension and replacement consistency processor"] |}
  /\ query_after (process_query "notIn" example_is_condition "project_id" None
                    (example_environment false 0 [7%Z]) example_query)
     <> example_query.
Proof.
  split; [reflexivity|]. split; [reflexivity|].
  intros H. apply (f_equal ast_condition) in H. discriminate H.
Qed.

(** C10 - Turbo short-circuit: when [get_turbo()] is true, [process_query]
    returns at once: the query is the one it was given and nothing was done
    to the outside, no lookup of the replacement state in particular. *)
Theorem turbo_short_circuit
  (NOT_IN : string) (is_condition : Legacy -> bool) (project_column : string)
  (replacer_state_name : option string) (env : Environment) (query : Query) :
  get_turbo env = true ->
  process_query NOT_IN is_condition project_column replacer_state_name env
    query
  = {| status := Returned; query_after := query; events := [] |}.
Proof.
  intros Hturbo. unfold process_query. rewrite Hturbo. reflexivity.
Qed.

Lemma turbo_short_circuit_witness :
  process_query "notIn" example_is_condition "project_id" None
    (example_environment true 1 [7%Z]) example_query
  = {| status := Returned; query_after := example_query; events := [] |}.
Proof.
  apply (turbo_short_circuit "notIn" example_is_condition "project_id" None
           (example_environment true 1 [7%Z]) example_query).
  reflexivity.
Defined.

End ReplacedGroupsSpec.

(** * Properties of the transformation of conditions *)

Module ConditionTreeSpec.
Import Matchers ConditionTree.






(** ** The equations of [transform] and of its trace *)

Section Equations.

Variable func : Exp -> Exp.





End Equations.

(** ** What is observed of a node *)






(** ** The trace of [transform] *)



(** ** Iteration after the rewriting *)





(** The condition of test_map_expressions_in_basic_condition:
    [f(c1) = c2], and the names of its expressions. *)
Definition c1 : Exp := Column tt None (Some "t1") "c1".
Definition c2 : Exp := Column tt None (Some "t1") "c2".
Definition c3 : Exp := Column tt None (Some "t1") "c3".



(** test_nested_simple_condition: (c1 = c2 OR c1 = c2) AND (c1 = c2 OR
    c1 = c2); after the call every c2 of the same condition is cX. *)
Example test_nested_simple_condition :
  let co := BasicCondition c1 EQ c2 in
  let cX := Column tt None (Some "t1") "cX" in
  get_expressions
    (get_expressions_transform "and1" (replace_col "c2" cX)
       {["and1" := AndCondition [OrCondition [co; co]; OrCondition [co; co]]]})
    "and1"
  = Some [c1; cX; c1; cX; c1; cX; c1; cX].
Proof. vm_compute. reflexivity. Qed.

(** The order of the calls: on [f(g(c1), c2)], a function that turns the
    rebuilt [g(c3)] into [c2] is offered [g(c3)], not [g(c1)]: the children are
    rewritten before their parent is looked at. *)
Example transform_innermost_first :
  let g (c : Exp) : Exp := FunctionCall tt None "g" [c] in
  let func (e : Exp) : Exp :=
    match e with
    | Column _ _ _ "c1" => c3
    | FunctionCall _ _ "g" [Column _ _ _ "c3"] => c2
    | _ => e
    end in
  transform func (FunctionCall tt None "f" [g c1; c2])
  = FunctionCall tt None "f" [c2; c2]
  /\ calls func (FunctionCall tt None "f" [g c1; c2])
     = [c1; g c3; c2; FunctionCall tt None "f" [c2; c2]].
Proof. split; reflexivity. Qed.

End ConditionTreeSpec.

(** * Further properties of the rule based translator *)

Module RulesBasedMore.
Import RulesBased RulesBasedSpec.
Local Open Scope translation_scope.

(** The alias of a node. *)
Definition alias_of {Id} (e : Expression Id) : option string :=
  match e with
  | Column _ a _ _ | Literal _ a _ | Argument _ a _ | FunctionCall _ a _ _
  | CurriedFunctionCall _ a _ _ | SubscriptableReference _ a _ _
  | Lambda _ a _ _ => a
  end.

(** X1 - First answer wins: when the rules registered before a rule [r] all
    decline on a node and [r] answers, the method of that kind returns the
    answer of [r]: the rules after it, the default rule included, are not
    consulted. *)
Theorem first_answer_wins (rules : TranslationRules) (fuel : nat) (k : Kind)
  (e : Expr) (before after : list ExpressionMapper) (r : ExpressionMapper)
  (e' : Expr) (s s' : nat) :
  rules_of k rules = before ++ r :: after ->
  Forall (declines e (translator (concat rules default_rules) fuel)) before ->
  r e (translator (concat rules default_rules) fuel) s = Ok (Some e') s' ->
  translate_kind k (SnubaClickhouseRulesTranslator rules (S fuel)) e s
  = Ok e' s'.
Proof.
  intros Hrules Hbefore Hr. unfold SnubaClickhouseRulesTranslator.
  rewrite translate_kind_S, rules_of_concat, Hrules.
  unfold map_expression, bind.
  rewrite <- List.app_assoc, first_match_app.
  rewrite (first_match_declined _ _ _ Hbefore).
  simpl. unfold bind. rewrite Hr. reflexivity.
Qed.

(** A user rule for col placed before the default rule: the column is
    renamed, not copied. *)
Lemma first_answer_wins_witness :
  translate_kind KColumn
    (SnubaClickhouseRulesTranslator
       {| columns := [ColumnMapper "cola" None "colb" None;
                      ColumnMapper "col" None "col2" None];
          literals := []; functions := []; curried_functions := [];
          subscriptables := []; lambdas := []; arguments := [] |} 1)
    (Column 0 (Some "a") None "col") 1
  = Ok (Column 1 (Some "a") None "col2") 2.
Proof.
  apply (first_answer_wins _ 0 KColumn (Column 0 (Some "a") None "col")
           [ColumnMapper "cola" None "colb" None] []
           (ColumnMapper "col" None "col2" None)).
  - reflexivity.
  - apply List.Forall_cons; [intros s; reflexivity | apply List.Forall_nil].
  - reflexivity.
Defined.

Lemma mapM_allocations (f : Expr -> M Expr) (P : Expr -> Prop) :
  (forall e s, P e ->
     exists e', f e s = Ok e' (s + length (iter_expression e))) ->
  forall es s, Forall P es ->
    exists es',
      mapM f es s
      = Ok es' (s + length (List.concat (List.map iter_expression es))).
Proof.
  intros Hf es. induction es as [|e es IH]; intros s HP.
  - exists []. simpl. unfold ret. f_equal. lia.
  - inversion HP as [|? ? He Hes]; subst.
    destruct (Hf e s He) as (e' & Hrun).
    destruct (IH (s + length (iter_expression e)) Hes) as (es' & Hruns).
    exists (e' :: es'). simpl.
    rewrite (bind_Ok _ _ _ _ _ Hrun), (bind_Ok _ _ _ _ _ Hruns).
    unfold ret. f_equal. rewrite List.length_app. lia.
Qed.

(** X2 - One object per node: with no user rule, the translation of a
    well-formed tree builds exactly as many objects as the tree has nodes. *)
Theorem default_translation_allocations (fuel : nat) (e : Expr) (s : nat) :
  well_formed e = true -> height e <= fuel ->
  exists e',
    translate_expression (SnubaClickhouseRulesTranslator no_rules fuel) e s
    = Ok e' (s + length (iter_expression e)).
Proof.
  unfold SnubaClickhouseRulesTranslator, translate_expression.
  revert e s. induction fuel as [|n IH]; intros e s Hwf Hh.
  - destruct e; simpl in Hh; lia.
  - assert (IHe : forall e s, well_formed e = true /\ height e <= n ->
              exists e',
                translate_expression
                  (translator (concat no_rules default_rules) n) e s
                = Ok e' (s + length (iter_expression e))).
    { intros e0 s0 [H1 H2]. apply IH; assumption. }
    rewrite translate_kind_S.
    destruct e as [i a t c|i a v|i a x|i a f ps|i a f ps|i a c k|i a xs b];
      simpl in Hwf, Hh.
    + exists (Column s a t c). unfold map_expression, bind; simpl.
      unfold ret. f_equal. lia.
    + exists (Literal s a v). unfold map_expression, bind; simpl.
      unfold ret. f_equal. lia.
    + exists (Argument s a x). unfold map_expression, bind; simpl.
      unfold ret. f_equal. lia.
    + destruct (mapM_allocations _ _ IHe ps s
                  (forallb_Forall_wf_height ps n Hwf ltac:(lia)))
        as (ps' & Hrun).
      exists (FunctionCall
                (s + length (List.concat (List.map iter_expression ps)))
                a f ps').
      unfold map_expression, bind; simpl. unfold bind. rewrite Hrun.
      simpl. unfold ret. f_equal. lia.
    + apply andb_true_iff in Hwf as [Hwf Hps].
      apply andb_true_iff in Hwf as [Hk Hf].
      destruct f as [| | |j b g qs| | |]; try discriminate Hk.
      destruct (IH (FunctionCall j b g qs) s Hf ltac:(lia)) as (f' & Hrunf).
      destruct (mapM_allocations _ _ IHe ps
                  (s + length (iter_expression (FunctionCall j b g qs)))
                  (forallb_Forall_wf_height ps n Hps ltac:(lia)))
        as (ps' & Hrun).
      eexists.
      unfold map_expression, bind; simpl. unfold bind.
      simpl in Hrunf. rewrite Hrunf. simpl in Hrun. rewrite Hrun.
      simpl. unfold ret. f_equal. rewrite List.length_app. simpl. lia.
    + apply andb_true_iff in Hwf as [Hc Hk].
      destruct c as [j b t c| | | | | |]; try discriminate Hc.
      destruct k as [|j' b' v| | | | |]; try discriminate Hk.
      destruct n as [|n]; [simpl in Hh; lia|].
      exists (SubscriptableReference (S (S s)) a (Column s b t c)
                (Literal (S s) b' v)).
      unfold map_expression, bind; simpl. unfold ret. f_equal. lia.
    + assert (Hb : height b <= n) by lia.
      destruct (IHe b s (conj Hwf Hb)) as (b' & Hrun).
      eexists.
      unfold map_expression, bind; cbn -[translate_expression]. unfold bind.
      rewrite Hrun. simpl. unfold ret. f_equal. lia.
Qed.

Lemma default_translation_allocations_witness :
  exists e',
    translate_expression (SnubaClickhouseRulesTranslator no_rules 2)
      (FunctionCall 0 None "f"
         [Column 1 None None "col"; Literal 2 None (VInt 12)]) 3
    = Ok e' 6.
Proof.
  apply (default_translation_allocations 2
           (FunctionCall 0 None "f"
              [Column 1 None None "col"; Literal 2 None (VInt 12)]) 3).
  - reflexivity.
  - simpl. lia.
Defined.

(** X3 - The ValueError is in reach of a call on the wrong class: the
    default rules for function calls and for curried calls test the class of
    their argument and decline on another class, so when the user rules
    decline too, [translate_function_call] on a node that is not a
    FunctionCall, and [translate_curried_function_call] on a node that is not
    a CurriedFunctionCall, raise "Cannot map expression". *)
Theorem cannot_map_on_wrong_class (rules : TranslationRules) (fuel : nat)
  (e : Expr) (s : nat) :
  (isinstance e KFunctionCall = false ->
   Forall (declines e (translator (concat rules default_rules) fuel))
     (functions rules) ->
   translate_function_call (SnubaClickhouseRulesTranslator rules (S fuel)) e s
   = Raise ValueError_CannotMap)
  /\ (isinstance e KCurriedFunctionCall = false ->
      Forall (declines e (translator (concat rules default_rules) fuel))
        (curried_functions rules) ->
      translate_curried_function_call
        (SnubaClickhouseRulesTranslator rules (S fuel)) e s
      = Raise ValueError_CannotMap).
Proof.
  split; intros Hk Hdecl; unfold SnubaClickhouseRulesTranslator; simpl;
    unfold visit, map_expression, bind; simpl;
    rewrite first_match_app, (first_match_declined _ _ _ Hdecl);
    destruct e; try discriminate Hk; reflexivity.
Qed.

Lemma cannot_map_on_wrong_class_witness :
  translate_function_call (SnubaClickhouseRulesTranslator no_rules 1)
    (CurriedFunctionCall 0 None (FunctionCall 1 None "f" []) []) 2
  = Raise ValueError_CannotMap.
Proof.
  refine (proj1 (cannot_map_on_wrong_class no_rules 0
                   (CurriedFunctionCall 0 None (FunctionCall 1 None "f" []) [])
                   2) _ _).
  - reflexivity.
  - apply List.Forall_nil.
Defined.

Lemma mapM_length {A B} (f : A -> M B) (l : list A) s l' s' :
  mapM f l s = Ok l' s' -> length l' = length l.
Proof.
  revert s l'. induction l as [|x l IH]; intros s l' H; simpl in H.
  - injection H as <- <-. reflexivity.
  - apply bind_Ok_inv in H as (y & s1 & _ & H).
    apply bind_Ok_inv in H as (ys & s2 & Hys & H).
    injection H as <- <-. simpl. f_equal. eapply IH; eauto.
Qed.

(** X4 - The default rules keep the class and the alias: whatever the rules
    do to its children, a node on which the user rules of its kind decline is
    translated to a node of the same class with the same alias; a function
    call keeps its name and the number of its parameters. *)
Theorem default_rules_keep_class_and_alias (rules : TranslationRules)
  (fuel : nat) (e e' : Expr) (s s' : nat) :
  Forall (declines e (translator (concat rules default_rules) fuel))
    (rules_of (kind e) rules) ->
  translate_expression (SnubaClickhouseRulesTranslator rules (S fuel)) e s
  = Ok e' s' ->
  kind e' = kind e /\ alias_of e' = alias_of e
  /\ (forall i a f ps, e = FunctionCall i a f ps ->
        exists i' ps', e' = FunctionCall i' a f ps'
                       /\ length ps' = length ps).
Proof.
  intros Hdecl H. unfold SnubaClickhouseRulesTranslator, translate_expression in H.
  rewrite translate_kind_S, rules_of_concat in H.
  unfold map_expression, bind in H.
  rewrite first_match_app, (first_match_declined _ _ _ Hdecl) in H.
  destruct e as [i a t c|i a v|i a x|i a f ps|i a f ps|i a c k|i a xs b];
    simpl in H; unfold bind in H; simpl in H.
  - injection H as <- <-. repeat split; intros; discriminate.
  - injection H as <- <-. repeat split; intros; discriminate.
  - injection H as <- <-. repeat split; intros; discriminate.
  - destruct (mapM _ ps s) as [ps' s1|x] eqn:Hps; simpl in H;
      [|discriminate H].
    injection H as <- <-. repeat split.
    intros i0 a0 f0 ps0 E. injection E as -> -> -> ->.
    exists s1, ps'. split; [reflexivity|]. eapply mapM_length; eauto.
  - destruct (translate_function_call _ f s) as [f' s1|x]; simpl in H;
      [|discriminate H].
    destruct (mapM _ ps s1) as [ps' s2|x]; simpl in H; [|discriminate H].
    injection H as <- <-. repeat split; intros; discriminate.
  - destruct (translate_column _ c s) as [c' s1|x]; simpl in H;
      [|discriminate H].
    destruct (isinstance c' KColumn); simpl in H; [|discriminate H].
    destruct (translate_literal _ k s1) as [k' s2|x]; simpl in H;
      [|discriminate H].
    destruct (isinstance k' KLiteral); simpl in H; [|discriminate H].
    injection H as <- <-. repeat split; intros; discriminate.
  - destruct (translate_expression _ b s) as [b' s1|x]; simpl in H;
      [|discriminate H].
    injection H as <- <-. repeat split; intros; discriminate.
Qed.

Lemma default_rules_keep_class_and_alias_witness :
  kind (FunctionCall 3 (Some "alias") "f" [Column 2 None None "col2"])
  = kind (FunctionCall 0 (Some "alias") "f" [Column 1 None None "col"] : Expr)
  /\ alias_of (FunctionCall 3 (Some "alias") "f" [Column 2 None None "col2"])
     = alias_of
         (FunctionCall 0 (Some "alias") "f" [Column 1 None None "col"] : Expr)
  /\ (forall i a f ps,
        FunctionCall 0 (Some "alias") "f" [Column 1 None None "col"]
        = FunctionCall i a f ps ->
        exists i' ps',
          FunctionCall 3 (Some "alias") "f" [Column 2 None None "col2"]
          = FunctionCall i' a f ps'
          /\ length ps' = length ps).
Proof.
  apply (default_rules_keep_class_and_alias
           {| columns := [ColumnMapper "col" None "col2" None];
              literals := []; functions := []; curried_functions := [];
              subscriptables := []; lambdas := []; arguments := [] |}
           1 (FunctionCall 0 (Some "alias") "f" [Column 1 None None "col"])
           _ 2 4).
  - apply List.Forall_nil.
  - reflexivity.
Defined.

(** X5 - The assertions of the default rule for subscriptable references:
    when the user rules for subscriptable references decline and the column
    is translated to a node that is not a Column, the translation raises
    AssertionError; when the column stays a Column and the key is translated
    to a node that is not a Literal, it raises AssertionError too. *)
Theorem subscriptable_assertions (rules : TranslationRules) (fuel : nat)
  (i : nat) (alias : option string) (col key : Expr) (s : nat) :
  Forall (declines (SubscriptableReference i alias col key)
            (translator (concat rules default_rules) fuel))
    (subscriptables rules) ->
  (forall c' s1,
     translate_column (translator (concat rules default_rules) fuel) col s
     = Ok c' s1 ->
     isinstance c' KColumn = false ->
     translate_subscriptable_reference
       (SnubaClickhouseRulesTranslator rules (S fuel))
       (SubscriptableReference i alias col key) s
     = Raise AssertionError)
  /\ (forall c' s1 k' s2,
        translate_column (translator (concat rules default_rules) fuel) col s
        = Ok c' s1 ->
        isinstance c' KColumn = true ->
        translate_literal (translator (concat rules default_rules) fuel) key
          s1 = Ok k' s2 ->
        isinstance k' KLiteral = false ->
        translate_subscriptable_reference
          (SnubaClickhouseRulesTranslator rules (S fuel))
          (SubscriptableReference i alias col key) s
        = Raise AssertionError).
Proof.
  intros Hdecl.
  assert (Hrun : translate_subscriptable_reference
                   (SnubaClickhouseRulesTranslator rules (S fuel))
                   (SubscriptableReference i alias col key) s
                 = map_expression (SubscriptableReference i alias col key)
                     (translator (concat rules default_rules) fuel)
                     [DefaultSubscriptableMapper] s).
  { unfold SnubaClickhouseRulesTranslator. simpl.
    unfold visit, map_expression, bind. simpl.
    rewrite first_match_app, (first_match_declined _ _ _ Hdecl).
    reflexivity. }
  rewrite Hrun. unfold map_expression, bind. simpl. unfold bind.
  split.
  - intros c' s1 Hc Hk. rewrite Hc. simpl. rewrite Hk. reflexivity.
  - intros c' s1 k' s2 Hc Hk Hl Hkl. rewrite Hc. simpl. rewrite Hk. simpl.
    rewrite Hl. simpl. rewrite Hkl. reflexivity.
Qed.

Lemma subscriptable_assertions_witness :
  translate_subscriptable_reference
    (SnubaClickhouseRulesTranslator
       {| columns := [ColumnToLiteralMapper "tags" (VStr "tags")];
          literals := []; functions := []; curried_functions := [];
          subscriptables := []; lambdas := []; arguments := [] |} 2)
    (SubscriptableReference 0 None (Column 1 None None "tags")
       (Literal 2 None (VStr "release"))) 3
  = Raise AssertionError.
Proof.
  refine (proj1 (subscriptable_assertions
                   {| columns := [ColumnToLiteralMapper "tags" (VStr "tags")];
                      literals := []; functions := [];
                      curried_functions := []; subscriptables := [];
                      lambdas := []; arguments := [] |}
                   1 0 None (Column 1 None None "tags")
                   (Literal 2 None (VStr "release")) 3 _)
            (Literal 3 None (VStr "tags")) 4 _ _).
  - apply List.Forall_nil.
  - reflexivity.
  - reflexivity.
Defined.

End RulesBasedMore.

(** * Properties of the rules made of a matcher and an executor *)

Module MappingRulesSpec.
Import RulesBased RulesBasedSpec MappingRules.
Local Open Scope translation_scope.

(** A matcher that accepts the calls of f only, and an executor that renames
    them to g over the translated parameter. *)
Definition example_matcher : ExpressionMatcher unit :=
  fun e => match e with
           | FunctionCall _ _ "f" [p] => (true, [], [("p", p)])
           | _ => (false, [], [])
           end.

Definition example_executor : StructuredRuleExecutor unit :=
  fun e _ translated =>
    bind new_object
      (fun i => ret (FunctionCall i (RulesBasedMore.alias_of e) "g"
                       (List.map snd translated))).



Lemma translated_params_keys (t : SnubaClickhouseTranslator)
  (to_translate translated : list (string * Expr)) s s' :
  translated_params t to_translate s = Ok translated s' ->
  List.map fst translated = List.map fst to_translate.
Proof.
  unfold translated_params.
  revert s translated. induction to_translate as [|[k e] l IH];
    intros s translated H; simpl in H.
  - injection H as <- <-. reflexivity.
  - apply bind_Ok_inv in H as ([k' e'] & s1 & Hhd & H).
    apply bind_Ok_inv in H as (tl & s2 & Htl & H).
    injection H as <- <-.
    apply bind_Ok_inv in Hhd as (e0 & s0 & _ & Hhd).
    injection Hhd as <- <- <-. simpl. f_equal. eapply IH; eauto.
Qed.

Lemma translated_params_values (t : SnubaClickhouseTranslator)
  (to_translate translated : list (string * Expr)) s s' :
  translated_params t to_translate s = Ok translated s' ->
  Forall2 (fun item item' =>
             fst item' = fst item
             /\ exists s0 s1,
                  translate_expression t (snd item) s0 = Ok (snd item') s1)
    to_translate translated.
Proof.
  unfold translated_params.
  revert s translated. induction to_translate as [|[k e] l IH];
    intros s translated H; simpl in H.
  - injection H as <- <-. constructor.
  - apply bind_Ok_inv in H as ([k' e'] & s1 & Hhd & H).
    apply bind_Ok_inv in H as (tl & s2 & Htl & H).
    injection H as <- <-.
    apply bind_Ok_inv in Hhd as (e0 & s0 & He0 & Hhd).
    injection Hhd as <- <- <-. constructor.
    + simpl. split; [reflexivity|]. eauto.
    + eapply IH; eauto.
Qed.

(** X7 - What the executor receives: when the rule answers, its matcher
    accepted the expression, and the executor was run on the parameters of
    the matcher and on a mapping with the names of [to_translate], in the same
    order, each bound to the translation of its expression by the children
    translator. *)
Theorem accepted_rule_translates_every_parameter (Any : Type)
  (matcher : ExpressionMatcher Any) (executor : StructuredRuleExecutor Any)
  (e : Expr) (t : SnubaClickhouseTranslator) (s s' : nat) (result : Expr) :
  attemptMap Any matcher executor e t s = Ok (Some result) s' ->
  fst (fst (matcher e)) = true
  /\ exists translated s1,
       executor e (snd (fst (matcher e))) translated s1 = Ok result s'
       /\ Forall2 (fun item item' =>
                     fst item' = fst item
                     /\ exists s0 s2,
                          translate_expression t (snd item) s0
                          = Ok (snd item') s2)
            (snd (matcher e)) translated.
Proof.
  unfold attemptMap. destruct (matcher e) as [[accepted ps] to_translate].
  simpl. destruct accepted; simpl; [|discriminate].
  intros H. split; [reflexivity|].
  apply bind_Ok_inv in H as (translated & s1 & Htr & H).
  apply bind_Ok_inv in H as (r & s2 & Hex & H).
  injection H as <- <-.
  exists translated, s1. split; [exact Hex|].
  eapply translated_params_values; eauto.
Qed.

Lemma accepted_rule_translates_every_parameter_witness :
  fst (fst (example_matcher
              (FunctionCall 0 (Some "a") "f" [Column 1 None None "c"])))
  = true
  /\ exists translated s1,
       example_executor
         (FunctionCall 0 (Some "a") "f" [Column 1 None None "c"])
         (snd (fst (example_matcher
                      (FunctionCall 0 (Some "a") "f"
                         [Column 1 None None "c"]))))
         translated s1
       = Ok (FunctionCall 3 (Some "a") "g" [Column 2 None None "c"]) 4
       /\ Forall2 (fun item item' =>
                     fst item' = fst item
                     /\ exists s0 s2,
                          translate_expression
                            (SnubaClickhouseRulesTranslator no_rules 1)
                            (snd item) s0
                          = Ok (snd item') s2)
            (snd (example_matcher
                    (FunctionCall 0 (Some "a") "f" [Column 1 None None "c"])))
            translated.
Proof.
  apply (accepted_rule_translates_every_parameter unit example_matcher
           example_executor
           (FunctionCall 0 (Some "a") "f" [Column 1 None None "c"])
           (SnubaClickhouseRulesTranslator no_rules 1) 2 4).
  reflexivity.
Defined.

(** A matcher that asks for the translation of well-formed expressions
    only, on the well-formed nodes of kind [k]; and an executor that does not
    raise the ValueError of the translator. *)
Definition matcher_well_formed {Any} (k : Kind)
  (matcher : ExpressionMatcher Any) : Prop :=
  forall e, kind e = k -> well_formed e = true ->
    Forall (fun item => well_formed (snd item) = true) (snd (matcher e)).

Definition executor_mapped {Any} (executor : StructuredRuleExecutor Any)
  : Prop :=
  forall e ps translated s, mapped (executor e ps translated s).

(** X8 - Such a rule never raises "Cannot map expression" by itself: given a
    translator whose methods do not raise it, the rule does not raise it
    either, so it can be registered without putting the ValueError of
    [__map_expression] in reach. *)
Theorem structured_rule_respects (Any : Type) (k : Kind)
  (matcher : ExpressionMatcher Any) (executor : StructuredRuleExecutor Any) :
  matcher_well_formed k matcher ->
  executor_mapped executor ->
  rule_respects k (attemptMap Any matcher executor).
Proof.
  intros Hm Hex t Ht e s Hk Hwf. unfold attemptMap.
  specialize (Hm e Hk Hwf).
  destruct (matcher e) as [[accepted ps] to_translate]. simpl in Hm.
  destruct accepted; simpl; [|discriminate].
  apply mapped_bind.
  - unfold translated_params. clear Hk Hwf. revert s.
    induction Hm as [|[k0 e0] l He0 _ IH]; intros s; simpl.
    + discriminate.
    + apply mapped_bind.
      * apply mapped_bind; [apply Ht; exact He0|]. intros; discriminate.
      * intros a s1 _. apply mapped_bind; [apply IH|]. intros; discriminate.
  - intros translated s1 _. apply mapped_bind; [apply Hex|].
    intros; discriminate.
Qed.

Lemma structured_rule_respects_witness :
  rule_respects KFunctionCall
    (attemptMap unit example_matcher example_executor).
Proof.
  apply (structured_rule_respects unit KFunctionCall example_matcher
           example_executor).
  - intros e Hk Hwf. destruct e as [| | |i a f ps| | |]; try discriminate Hk.
    unfold example_matcher.
    destruct (decide (f = "f")) as [->|Hne].
    + destruct ps as [|p [|q ps]]; simpl; try constructor.
      * simpl in Hwf. apply andb_true_iff in Hwf. tauto.
      * constructor.
    + assert (H : snd (match f with
                       | "f" => match ps with
                                | [p] => (true, [], [("p", p)])
                                | _ => (false, @nil (string * unit), [])
                                end
                       | _ => (false, [], [])
                       end) = [] \/ f = "f").
      { clear -Hne. 
        repeat (destruct f as [|[[] [] [] [] [] [] [] []] f];
                try (left; reflexivity); try (right; reflexivity)). }
      destruct H as [H|H]; [|contradiction].
      simpl. simpl in H. rewrite H. constructor.
  - intros e ps translated s. discriminate.
Defined.

End MappingRulesSpec.

(** * Further properties of the UUID processor *)

Module UUIDColumnProcessorMore.
Import Matchers conditions UUIDColumnProcessor UUIDColumnProcessorSpec.
Local Open Scope match_scope.

(** A side of a comparison that the second pattern accepts: a literal whose
    value is a string or [None], or a wrapped column. *)
Inductive Side : Type :=
| LiteralSide (alias : option string) (value : option string)
| WrappedSide (outer_alias inner_alias column_alias table_name : option string)
              (column_name : string) (optionals : list Exp).

Definition side_value (value : option string) : LiteralValue :=
  match value with
  | Some s => VStr s
  | None => VNone
  end.

Definition side_exp (side : Side) : Exp :=
  match side with
  | LiteralSide alias value => Literal tt alias (side_value value)
  | WrappedSide outer_alias inner_alias column_alias table_name column_name
      optionals =>
      wrapped_column outer_alias inner_alias
        (Column tt column_alias table_name column_name) optionals
  end.

(** The wrapped column is one of the UUID columns. *)
Definition side_on (uuid_columns : gset string) (side : Side) : Prop :=
  match side with
  | LiteralSide _ _ => True
  | WrappedSide _ _ _ _ column_name _ => column_name ∈ uuid_columns
  end.

(** What the side is replaced by: the literal parsed as a UUID, or the
    column itself in place of the calls around it. *)
Definition rewritten_side (str : LiteralValue -> string)
  (uuid_UUID : string -> option string) (side : Side) : Exp :=
  match side with
  | LiteralSide alias value =>
      parse_uuid str uuid_UUID (Literal tt alias (side_value value))
  | WrappedSide _ _ column_alias table_name column_name _ =>
      Column tt column_alias table_name column_name
  end.

(** The capture of a side: its name without the suffix, and the node. *)
Definition capture_name (side : Side) : string :=
  match side with
  | LiteralSide _ _ => "literal"
  | WrappedSide _ _ _ _ _ _ => "formatted_uuid_column"
  end.

Definition captured (side : Side) : Exp :=
  match side with
  | LiteralSide alias value => Literal tt alias (side_value value)
  | WrappedSide _ _ column_alias table_name column_name _ =>
      Column tt column_alias table_name column_name
  end.

Lemma side_pattern_spec (uuid_columns : gset string) (suffix : string)
  (side : Side) :
  side_on uuid_columns side ->
  matches
    (Or [Param ("literal" +:+ suffix) (LiteralMatch (Some AnyOptionalString));
         formatted_uuid_pattern uuid_columns suffix])
    (NExpression (side_exp side))
  = Return (Some {[ capture_name side +:+ suffix
                    := NExpression (captured side) ]}).
Proof.
  intros Hon. rewrite !matches_Or_cons.
  destruct side as [alias value|oa ia ca t c opts].
  - destruct value as [s|]; cbn -[String.app]; rewrite insert_empty;
      reflexivity.
  - cbn [side_exp capture_name captured].
    assert (Hlit : matches
                     (Param ("literal" +:+ suffix)
                        (LiteralMatch (Some AnyOptionalString)))
                     (NExpression
                        (wrapped_column oa ia (Column tt ca t c) opts))
                   = Return None) by reflexivity.
    rewrite Hlit. cbn [bind].
    rewrite (formatted_uuid_pattern_spec uuid_columns suffix oa ia ca t c
               opts Hon).
    reflexivity.
Qed.

(** X9 - UUID rewrite of comparisons: take a call of a comparison function
    (a key of FUNCTION_TO_OPERATOR other than IN and NOT IN) on two sides,
    each a literal whose value is a string or [None], or
    [replaceAll(toString(column), ...)] for a UUID column.
    [process_condition] returns the same function, under the same alias,
    applied to the two rewritten sides: a literal is replaced by [parse_uuid]
    of it, and a wrapped column by the column itself, with its alias. *)
Theorem uuid_comparison_rewrite
  (IN NOT_IN : string) (FUNCTION_TO_OPERATOR : list string)
  (str : LiteralValue -> string) (uuid_UUID : string -> option string)
  (uuid_columns : gset string)
  (exp_alias : option string) (op : string) (left_side right_side : Side) :
  op ∈ FUNCTION_TO_OPERATOR ->
  op <> IN ->
  op <> NOT_IN ->
  side_on uuid_columns left_side ->
  side_on uuid_columns right_side ->
  process_condition IN NOT_IN FUNCTION_TO_OPERATOR str uuid_UUID uuid_columns
    (FunctionCall tt exp_alias op [side_exp left_side; side_exp right_side])
  = Return
      (FunctionCall tt exp_alias op
         [rewritten_side str uuid_UUID left_side;
          rewritten_side str uuid_UUID right_side]).
Proof.
  intros Hop HIN HNOT_IN Hl Hr. unfold process_condition.
  assert (Hin : matches (uuid_in_condition IN NOT_IN uuid_columns)
                  (NExpression
                     (FunctionCall tt exp_alias op
                        [side_exp left_side; side_exp right_side]))
                = Return None).
  { unfold uuid_in_condition. rewrite matches_call.
    change (Or [String IN; String NOT_IN])
      with (Or (List.map String [IN; NOT_IN])).
    rewrite (matches_Or_String [IN; NOT_IN] op).
    rewrite bool_decide_eq_false_2; [reflexivity|].
    intros H. apply elem_of_cons in H as [H|H]; [contradiction|].
    apply list_elem_of_singleton in H. contradiction. }
  rewrite Hin.
  unfold uuid_condition. rewrite matches_call, matches_Or_String.
  rewrite bool_decide_eq_true_2.
  2:{ apply list_elem_of_In, filter_In. split.
      - apply list_elem_of_In. exact Hop.
      - rewrite bool_decide_eq_false_2; [reflexivity|]. intros [?|?];
          contradiction. }
  cbn [bind length Nat.eqb negb match_parameters getitem lookup list_lookup].
  pose proof (side_pattern_spec uuid_columns "_0" left_side Hl) as H0.
  pose proof (side_pattern_spec uuid_columns "_1" right_side Hr) as H1.
  change ("literal" +:+ "_0") with "literal_0" in H0.
  change ("literal" +:+ "_1") with "literal_1" in H1.
  rewrite H0. cbn [bind]. rewrite H1. cbn [bind].
  rewrite (left_id_L ∅ (∪)). clear.
  destruct left_side, right_side; vm_compute; reflexivity.
Qed.

(** [eq(replaceAll(toString(event_id), '-', '') AS a, 'a7d6...')]: the
    wrapped column on the left, the literal on the right. *)
Definition comparison_example : Exp :=
  FunctionCall tt None "eq"
    [FunctionCall tt (Some "a") "replaceAll"
       [FunctionCall tt None "toString"
          [Column tt (Some "e") None "event_id"];
        Literal tt None (VStr "-"); Literal tt None (VStr "")];
     Literal tt None (VStr "a7d67cf796774551a95be6543cacd459")].

Lemma uuid_comparison_rewrite_witness :
  process_condition "in" "notIn" ["eq"; "in"; "notIn"]
    str_example uuid_example {["event_id"]} comparison_example
  = Return
      (FunctionCall tt None "eq"
         [Column tt (Some "e") None "event_id";
          Literal tt None (VStr "a7d67cf7-9677-4551-a95b-e6543cacd459")]).
Proof.
  refine (uuid_comparison_rewrite "in" "notIn" ["eq"; "in"; "notIn"]
            str_example uuid_example {["event_id"]} None "eq"
            (WrappedSide (Some "a") None (Some "e") None "event_id"
               [Literal tt None (VStr "-"); Literal tt None (VStr "")])
            (LiteralSide None (Some "a7d67cf796774551a95be6543cacd459"))
            _ _ _ _ _).
  - apply list_elem_of_here.
  - discriminate.
  - discriminate.
  - vm_compute. reflexivity.
  - exact I.
Defined.

(** X10 - [parse_uuid] keeps the class and the alias of its argument and
    leaves every node that is not a literal as it is; and it is idempotent
    as soon as the canonical form of a UUID parses to itself and [str] of
    a string is that string. *)
Theorem parse_uuid_stable (str : LiteralValue -> string)
  (uuid_UUID : string -> option string) (e : Exp) :
  kind (parse_uuid str uuid_UUID e) = kind e
  /\ RulesBasedMore.alias_of (parse_uuid str uuid_UUID e)
     = RulesBasedMore.alias_of e
  /\ (isinstance e KLiteral = false -> parse_uuid str uuid_UUID e = e)
  /\ ((forall s, str (VStr s) = s) ->
      (forall s c, uuid_UUID s = Some c -> uuid_UUID c = Some c) ->
      parse_uuid str uuid_UUID (parse_uuid str uuid_UUID e)
      = parse_uuid str uuid_UUID e).
Proof.
  destruct e as [i a t c|[] a v|i a x|i a f ps|i a f ps|i a c k|i a xs b];
    simpl; try (repeat split; auto; discriminate).
  destruct (uuid_UUID (str v)) as [c|] eqn:Hv; simpl.
  - repeat split; try discriminate.
    intros Hstr Hcanon. rewrite Hstr, (Hcanon _ _ Hv). reflexivity.
  - repeat split; try discriminate. intros _ _. rewrite Hv. reflexivity.
Qed.

Lemma parse_uuid_stable_witness :
  parse_uuid UUIDColumnProcessorSpec.str_example
    (fun s => if decide (s = "a7d67cf796774551a95be6543cacd459"
                         \/ s = "a7d67cf7-9677-4551-a95b-e6543cacd459")
              then Some "a7d67cf7-9677-4551-a95b-e6543cacd459" else None)
    (parse_uuid UUIDColumnProcessorSpec.str_example
       (fun s => if decide (s = "a7d67cf796774551a95be6543cacd459"
                            \/ s = "a7d67cf7-9677-4551-a95b-e6543cacd459")
                 then Some "a7d67cf7-9677-4551-a95b-e6543cacd459" else None)
       (Literal tt None (VStr "a7d67cf796774551a95be6543cacd459")))
  = parse_uuid UUIDColumnProcessorSpec.str_example
      (fun s => if decide (s = "a7d67cf796774551a95be6543cacd459"
                           \/ s = "a7d67cf7-9677-4551-a95b-e6543cacd459")
                then Some "a7d67cf7-9677-4551-a95b-e6543cacd459" else None)
      (Literal tt None (VStr "a7d67cf796774551a95be6543cacd459")).
Proof.
  refine (proj2 (proj2 (proj2
    (parse_uuid_stable UUIDColumnProcessorSpec.str_example _
       (Literal tt None (VStr "a7d67cf796774551a95be6543cacd459"))))) _ _).
  - intros s. reflexivity.
  - intros s c H. case_decide; [|discriminate H]. injection H as <-.
    rewrite decide_True by (right; reflexivity). reflexivity.
Defined.

(** A wrapped column that is not a UUID column matches neither the
    pattern of wrapped columns nor the pattern of a side. *)
Lemma formatted_uuid_pattern_other (uuid_columns : gset string)
  (suffix : string)
  (outer_alias inner_alias column_alias table_name : option string)
  (column_name : string) (optionals : list Exp) :
  column_name ∉ uuid_columns ->
  matches (formatted_uuid_pattern uuid_columns suffix)
    (NExpression
       (wrapped_column outer_alias inner_alias
          (Column tt column_alias table_name column_name) optionals))
  = Return None.
Proof.
  intros Hout. unfold formatted_uuid_pattern, wrapped_column.
  cbn -[String.app uuid_column_match].
  rewrite !decide_True by reflexivity.
  unfold uuid_column_match. rewrite matches_Or_String.
  rewrite bool_decide_eq_false_2; [reflexivity|].
  intros Hin. apply Hout, elem_of_elements. exact Hin.
Qed.

Lemma side_pattern_other (uuid_columns : gset string) (suffix : string)
  (outer_alias inner_alias column_alias table_name : option string)
  (column_name : string) (optionals : list Exp) :
  column_name ∉ uuid_columns ->
  matches
    (Or [Param ("literal" +:+ suffix) (LiteralMatch (Some AnyOptionalString));
         formatted_uuid_pattern uuid_columns suffix])
    (NExpression
       (wrapped_column outer_alias inner_alias
          (Column tt column_alias table_name column_name) optionals))
  = Return None.
Proof.
  intros Hout. rewrite !matches_Or_cons.
  assert (Hlit : matches
                   (Param ("literal" +:+ suffix)
                      (LiteralMatch (Some AnyOptionalString)))
                   (NExpression
                      (wrapped_column outer_alias inner_alias
                         (Column tt column_alias table_name column_name)
                         optionals))
                 = Return None) by reflexivity.
  rewrite Hlit. cbn [bind].
  rewrite (formatted_uuid_pattern_other uuid_columns suffix outer_alias
             inner_alias column_alias table_name column_name optionals Hout).
  reflexivity.
Qed.

(** X25 - Other columns are left alone: a call of two parameters one of
    which is [replaceAll(toString(column), ...)] for a column that is not one
    of the UUID columns is returned as it is, whatever the function and the
    other parameter are. *)
Theorem other_columns_are_left_alone
  (IN NOT_IN : string) (FUNCTION_TO_OPERATOR : list string)
  (str : LiteralValue -> string) (uuid_UUID : string -> option string)
  (uuid_columns : gset string)
  (exp_alias : option string) (op : string) (lhs rhs : Exp)
  (outer_alias inner_alias column_alias table_name : option string)
  (column_name : string) (optionals : list Exp) :
  column_name ∉ uuid_columns ->
  lhs = wrapped_column outer_alias inner_alias
          (Column tt column_alias table_name column_name) optionals
  \/ rhs = wrapped_column outer_alias inner_alias
             (Column tt column_alias table_name column_name) optionals ->
  process_condition IN NOT_IN FUNCTION_TO_OPERATOR str uuid_UUID uuid_columns
    (FunctionCall tt exp_alias op [lhs; rhs])
  = Return (FunctionCall tt exp_alias op [lhs; rhs]).
Proof.
  intros Hout Hside.
  assert (Hin : matches (uuid_in_condition IN NOT_IN uuid_columns)
                  (NExpression (FunctionCall tt exp_alias op [lhs; rhs]))
                = Return None).
  { unfold uuid_in_condition. rewrite matches_call.
    change (Or [String IN; String NOT_IN])
      with (Or (List.map String [IN; NOT_IN])).
    rewrite matches_Or_String.
    destruct (bool_decide (op ∈ [IN; NOT_IN])); [|reflexivity].
    cbn [bind length Nat.eqb negb match_parameters getitem lookup
         list_lookup].
    destruct Hside as [-> | ->].
    - rewrite (formatted_uuid_pattern_other uuid_columns "" outer_alias
                 inner_alias column_alias table_name column_name optionals
                 Hout).
      reflexivity.
    - destruct (MatchersSpec.matches_returns
                  (formatted_uuid_pattern uuid_columns "") (NExpression lhs))
        as [[r|] ->]; reflexivity. }
  assert (Hcond : matches
                    (uuid_condition IN NOT_IN FUNCTION_TO_OPERATOR
                       uuid_columns)
                    (NExpression (FunctionCall tt exp_alias op [lhs; rhs]))
                  = Return None).
  { unfold uuid_condition. rewrite matches_call, matches_Or_String.
    destruct (bool_decide (op ∈ _)); [|reflexivity].
    cbn [bind length Nat.eqb negb match_parameters getitem lookup
         list_lookup].
    pose proof (side_pattern_other uuid_columns "_0" outer_alias inner_alias
                  column_alias table_name column_name optionals Hout) as H0.
    pose proof (side_pattern_other uuid_columns "_1" outer_alias inner_alias
                  column_alias table_name column_name optionals Hout) as H1.
    change ("literal" +:+ "_0") with "literal_0" in H0.
    change ("literal" +:+ "_1") with "literal_1" in H1.
    destruct Hside as [-> | ->].
    - rewrite H0. reflexivity.
    - destruct (MatchersSpec.matches_returns
                  (Or [Param "literal_0"
                         (LiteralMatch (Some AnyOptionalString));
                       formatted_uuid_pattern uuid_columns "_0"])
                  (NExpression lhs)) as [[r|] ->]; [|reflexivity].
      cbn [bind]. rewrite H1. reflexivity. }
  unfold process_condition. rewrite Hin, Hcond. reflexivity.
Qed.

(** [replaceAll(toString(transaction), '-', '') IN tuple('a7d6...')] when
    only event_id holds UUIDs. *)
Lemma other_columns_are_left_alone_witness :
  let exp :=
    FunctionCall tt None "in"
      [FunctionCall tt None "replaceAll"
         [FunctionCall tt None "toString"
            [Column tt None None "transaction"];
          Literal tt None (VStr "-"); Literal tt None (VStr "")];
       FunctionCall tt None "tuple"
         [Literal tt None (VStr "a7d67cf796774551a95be6543cacd459")]] in
  process_condition "in" "notIn" ["eq"; "in"; "notIn"]
    str_example uuid_example {["event_id"]} exp
  = Return exp.
Proof.
  refine (other_columns_are_left_alone "in" "notIn" ["eq"; "in"; "notIn"]
            str_example uuid_example {["event_id"]} None "in" _ _
            None None None None "transaction"
            [Literal tt None (VStr "-"); Literal tt None (VStr "")] _ _).
  - intros Hin. apply elem_of_singleton in Hin. discriminate Hin.
  - left. reflexivity.
Defined.

End UUIDColumnProcessorMore.

(** * Further properties of the post-replacement consistency enforcer *)

Module ReplacedGroupsMore.
Import Matchers conditions ReplacedGroups ReplacedGroupsSpec.

Ltac branches :=
  repeat match goal with
         | |- context [if ?b then _ else _] => destruct b eqn:?
         | |- context [match ?o with Some _ => _ | None => _ end] =>
             destruct o eqn:?
         end.

(** X11 - Failure to find the project ids: when the accessor raises, the
    activated processor raises too and the silent one logs one warning and
    returns; in both cases the query is left as it was and the replacement
    state is not read. *)
Theorem project_ids_failure
  (NOT_IN : string) (is_condition : Legacy -> bool) (project_column : string)
  (replacer_state_name : option string) (env : Environment) (query : Query) :
  get_turbo env = false ->
  get_project_ids_in_query env query project_column = None ->
  process_query NOT_IN is_condition project_column replacer_state_name env
    query
  = if activated env
    then {| status := Raised; query_after := query; events := [] |}
    else {| status := Returned; query_after := query;
            events :=
              [LoggerWarning "Failed to find project ids in the Query"] |}.
Proof.
  intros Hturbo Hids. unfold process_query, activated.
  rewrite Hturbo, Hids. reflexivity.
Qed.

Definition failing_environment (enabled : Z) : Environment :=
  {| get_turbo := false;
     consistency_enforcer_processor_enabled := enabled;
     get_project_ids_in_query := fun _ _ => None;
     get_projects_query_flags := fun _ _ => Some (false, []);
     max_group_ids_exclude := 2 |}.

Lemma project_ids_failure_witness :
  process_query "notIn" example_is_condition "project_id" None
    (failing_environment 1) example_query
  = {| status := Raised; query_after := example_query; events := [] |}.
Proof.
  apply (project_ids_failure "notIn" example_is_condition "project_id" None
           (failing_environment 1) example_query); reflexivity.
Defined.

(** X12 - No project in the query: the replacement state is not read; the
    activated processor sets FINAL to false, whatever it was, and adds no
    condition. *)
Theorem no_project_ids
  (NOT_IN : string) (is_condition : Legacy -> bool) (project_column : string)
  (replacer_state_name : option string) (env : Environment) (query : Query) :
  get_turbo env = false ->
  get_project_ids_in_query env query project_column = Some [] ->
  let r := process_query NOT_IN is_condition project_column
             replacer_state_name env query in
  status r = Returned
  /\ (forall ids name, ~ In (GetProjectsQueryFlags ids name) (events r))
  /\ ast_condition (query_after r) = ast_condition query
  /\ legacy_conditions (query_after r) = legacy_conditions query
  /\ (activated env = true ->
      final (query_after r) = false /\ events r = []).
Proof.
  intros Hturbo Hids r. subst r. unfold process_query, activated.
  rewrite Hturbo, Hids. simpl.
  destruct (negb (consistency_enforcer_processor_enabled env =? 0)%Z).
  - simpl. repeat split; auto.
  - unfold compare_with_extension. cbn -[existing_groups_conditions].
    branches; cbn; repeat split; auto; try discriminate;
      intros ids name Hin; simpl in Hin;
      repeat (destruct Hin as [Hin|Hin]; [discriminate Hin|]); exact Hin.
Qed.

Definition example_environment_no_project (enabled : Z) : Environment :=
  {| get_turbo := false;
     consistency_enforcer_processor_enabled := enabled;
     get_project_ids_in_query := fun _ _ => Some [];
     get_projects_query_flags := fun _ _ => Some (true, []);
     max_group_ids_exclude := 2 |}.

Lemma no_project_ids_witness :
  final (query_after
           (process_query "notIn" example_is_condition "project_id" None
              (example_environment_no_project 1)
              {| ast_condition := []; legacy_conditions := [];
                 final := true |}))
  = false.
Proof.
  pose proof (no_project_ids "notIn" example_is_condition "project_id" None
                (example_environment_no_project 1)
                {| ast_condition := []; legacy_conditions := [];
                   final := true |} eq_refl eq_refl) as H.
  exact (proj1 (proj2 (proj2 (proj2 (proj2 H))) eq_refl)).
Defined.

(** X13 - The answer of the replacement state wins over the exclusion list:
    when the lookup reports final = true, or no excluded group, the activated
    processor sets FINAL to the reported value and adds no condition, even if
    groups are excluded. *)
Theorem reported_final_is_applied
  (NOT_IN : string) (is_condition : Legacy -> bool) (project_column : string)
  (replacer_state_name : option string) (env : Environment) (query : Query)
  (project_ids exclude_group_ids : list Z) (fin : bool) :
  get_turbo env = false ->
  activated env = true ->
  get_project_ids_in_query env query project_column = Some project_ids ->
  project_ids <> [] ->
  get_projects_query_flags env project_ids replacer_state_name
  = Some (fin, exclude_group_ids) ->
  fin = true \/ exclude_group_ids = [] ->
  process_query NOT_IN is_condition project_column replacer_state_name env
    query
  = {| status := Returned; query_after := set_final query fin;
       events := [GetProjectsQueryFlags project_ids replacer_state_name] |}.
Proof.
  intros Hturbo Hact Hids Hne Hflags Hcase.
  unfold process_query, decide_consistency. unfold activated in Hact.
  rewrite Hturbo, Hids, Hact, Hflags.
  destruct project_ids as [|p ps]; [congruence|].
  destruct Hcase as [->| ->].
  - reflexivity.
  - rewrite bool_decide_eq_true_2 by reflexivity.
    rewrite andb_false_r. reflexivity.
Qed.

Lemma reported_final_is_applied_witness :
  process_query "notIn" example_is_condition "project_id" None
    {| get_turbo := false;
       consistency_enforcer_processor_enabled := 1;
       get_project_ids_in_query := fun _ _ => Some [1%Z];
       get_projects_query_flags := fun _ _ => Some (true, [7%Z]);
       max_group_ids_exclude := 2 |} example_query
  = {| status := Returned; query_after := set_final example_query true;
       events := [GetProjectsQueryFlags [1%Z] None] |}.
Proof.
  apply (reported_final_is_applied "notIn" example_is_condition "project_id"
           None _ example_query [1%Z] [7%Z] true).
  - reflexivity.
  - reflexivity.
  - reflexivity.
  - discriminate.
  - reflexivity.
  - left. reflexivity.
Defined.

(** X14 - Conditions are only appended: in every mode and for every answer
    of the outside, the conditions of the query are kept, in order, and at
    most one condition is added to the condition tree and at most one to the
    legacy conditions; a legacy condition is never added without the
    condition of the tree. *)
Theorem conditions_are_only_appended
  (NOT_IN : string) (is_condition : Legacy -> bool) (project_column : string)
  (replacer_state_name : option string) (env : Environment) (query : Query) :
  let r := process_query NOT_IN is_condition project_column
             replacer_state_name env query in
  exists added_ast added_legacy,
    ast_condition (query_after r) = ast_condition query ++ added_ast
    /\ legacy_conditions (query_after r)
       = legacy_conditions query ++ added_legacy
    /\ length added_ast <= 1
    /\ length added_legacy <= length added_ast.
Proof.
  intros r. subst r. unfold process_query.
  destruct (get_turbo env).
  { exists [], []. simpl. rewrite !List.app_nil_r. auto. }
  destruct (get_project_ids_in_query env query project_column)
    as [project_ids|].
  2:{ exists [], [].
      destruct (negb (consistency_enforcer_processor_enabled env =? 0)%Z);
        simpl; rewrite !List.app_nil_r; auto. }
  unfold decide_consistency.
  destruct project_ids as [|p ps].
  { exists [], [].
    destruct (negb (consistency_enforcer_processor_enabled env =? 0)%Z).
    - simpl. rewrite !List.app_nil_r. auto.
    - unfold compare_with_extension. cbn -[existing_groups_conditions].
      branches; simpl; rewrite !List.app_nil_r; auto. }
  destruct (get_projects_query_flags env (p :: ps) replacer_state_name)
    as [[fin exclude_group_ids]|].
  2:{ exists [], []. simpl. rewrite !List.app_nil_r. auto. }
  destruct (negb fin && negb (bool_decide (exclude_group_ids = []))).
  2:{ exists [], [].
      destruct (negb (consistency_enforcer_processor_enabled env =? 0)%Z).
      - simpl. rewrite !List.app_nil_r. auto.
      - unfold compare_with_extension. cbn -[existing_groups_conditions].
        branches; simpl; rewrite !List.app_nil_r; auto. }
  destruct (max_group_ids_exclude env <? Z.of_nat (length exclude_group_ids))%Z.
  { exists [], [].
    destruct (negb (consistency_enforcer_processor_enabled env =? 0)%Z).
    - simpl. rewrite !List.app_nil_r. auto.
    - unfold compare_with_extension. cbn -[existing_groups_conditions].
      branches; simpl; rewrite !List.app_nil_r; auto. }
  destruct (negb (consistency_enforcer_processor_enabled env =? 0)%Z).
  - exists [group_id_not_in NOT_IN exclude_group_ids],
      [LList [group_id_lhs; LStr "NOT IN";
              LList (List.map LInt exclude_group_ids)]].
    simpl. auto.
  - exists [group_id_not_in NOT_IN exclude_group_ids], [].
    unfold compare_with_extension.
    cbn -[existing_groups_conditions List.map group_id_not_in].
    branches; cbn -[List.map group_id_not_in]; rewrite ?List.app_nil_r; auto.
Qed.

(** The metric of an agreement and the warnings of the silent mode. *)
Definition is_match (e : Event) : bool :=
  match e with
  | MetricsIncrement "match" [] => true
  | _ => false
  end.

Definition is_warning (e : Event) : bool :=
  match e with
  | LoggerWarning _ => true
  | _ => false
  end.

Ltac returned_verdict :=
  cbn; split; [right; split; [reflexivity | auto] | lia].

(** X15 - The verdict of the silent mode: when the processor is not
    activated (and the request is not in turbo mode), the replacement state
    is read at most once, and a run ends in one of two ways.  Either the
    lookup of the replacement state raised: the exception leaves
    [process_query], the query is as it was, and there is no metric and no
    warning at all.  Or the call returns with exactly one verdict: the metric
    "match" and no warning, or one warning and no "match". *)
Theorem silent_mode_verdict
  (NOT_IN : string) (is_condition : Legacy -> bool) (project_column : string)
  (replacer_state_name : option string) (env : Environment) (query : Query) :
  get_turbo env = false ->
  consistency_enforcer_processor_enabled env = 0%Z ->
  let r := process_query NOT_IN is_condition project_column
             replacer_state_name env query in
  ((status r = Raised
    /\ (exists project_ids,
          get_project_ids_in_query env query project_column
          = Some project_ids
          /\ project_ids <> []
          /\ get_projects_query_flags env project_ids replacer_state_name
             = None
          /\ events r
             = [GetProjectsQueryFlags project_ids replacer_state_name])
    /\ query_after r = query)
   \/ (status r = Returned
       /\ (length (List.filter is_match (events r)) = 1
           /\ List.filter is_warning (events r) = []
           \/ List.filter is_match (events r) = []
              /\ length (List.filter is_warning (events r)) = 1)))
  /\ length (List.filter
               (fun e => match e with
                         | GetProjectsQueryFlags _ _ => true
                         | _ => false
                         end) (events r)) <= 1.
Proof.
  intros Hturbo Hoff r. subst r. unfold process_query.
  rewrite Hturbo, Hoff. cbn [Z.eqb negb].
  destruct (get_project_ids_in_query env query project_column)
    as [project_ids|] eqn:Hids; [|returned_verdict].
  unfold decide_consistency.
  destruct project_ids as [|p ps].
  { unfold compare_with_extension. cbn -[existing_groups_conditions].
    branches; returned_verdict. }
  destruct (get_projects_query_flags env (p :: ps) replacer_state_name)
    as [[fin exclude_group_ids]|] eqn:Hflags.
  2:{ cbn. split; [|lia]. left. split; [reflexivity|].
      split; [|reflexivity]. exists (p :: ps).
      repeat split; auto; discriminate. }
  destruct (negb fin && negb (bool_decide (exclude_group_ids = []))).
  2:{ unfold compare_with_extension. cbn -[existing_groups_conditions].
      branches; returned_verdict. }
  destruct (max_group_ids_exclude env <? Z.of_nat (length exclude_group_ids))%Z;
    unfold compare_with_extension;
    cbn -[existing_groups_conditions List.map not_in_condition];
    branches; returned_verdict.
Qed.

(** An environment whose replacement state cannot be read. *)
Definition unreadable_state_environment (enabled : Z) : Environment :=
  {| get_turbo := false;
     consistency_enforcer_processor_enabled := enabled;
     get_project_ids_in_query := fun _ _ => Some [1%Z];
     get_projects_query_flags := fun _ _ => None;
     max_group_ids_exclude := 2 |}.

(** Both ways of ending: an agreement, and a lookup that raises. *)
Lemma silent_mode_verdict_witness :
  List.filter is_match
    (events (process_query "notIn" example_is_condition "project_id" None
               (example_environment false 0 []) example_query))
  = [MetricsIncrement "match" []]
  /\ status (process_query "notIn" example_is_condition "project_id" None
               (unreadable_state_environment 0) example_query)
     = Raised.
Proof.
  pose proof (silent_mode_verdict "notIn" example_is_condition "project_id"
                None (example_environment false 0 []) example_query
                eq_refl eq_refl) as [H1 _].
  pose proof (silent_mode_verdict "notIn" example_is_condition "project_id"
                None (unreadable_state_environment 0) example_query
                eq_refl eq_refl) as [H2 _].
  split.
  - destruct H1 as [[Hraised _]|[_ [[Hm _]|[Hm _]]]].
    + discriminate Hraised.
    + reflexivity.
    + discriminate Hm.
  - destruct H2 as [[Hraised _]|[Hret _]].
    + exact Hraised.
    + discriminate Hret.
Defined.

(** X23 - What the silent mode leaves alone: when the processor is not
    activated, the FINAL flag and the legacy conditions of the query are
    never changed, whatever the outside answers and also when a call to it
    raises; and when the lookup raises, in either mode, the whole query is as
    it was. *)
Theorem silent_mode_keeps_final_and_legacy
  (NOT_IN : string) (is_condition : Legacy -> bool) (project_column : string)
  (replacer_state_name : option string) (env : Environment) (query : Query) :
  let r := process_query NOT_IN is_condition project_column
             replacer_state_name env query in
  (consistency_enforcer_processor_enabled env = 0%Z ->
   final (query_after r) = final query
   /\ legacy_conditions (query_after r) = legacy_conditions query)
  /\ (status r = Raised -> query_after r = query).
Proof.
  intros r. subst r. unfold process_query.
  destruct (get_turbo env); [split; auto|].
  destruct (get_project_ids_in_query env query project_column)
    as [project_ids|].
  2:{ destruct (negb (consistency_enforcer_processor_enabled env =? 0)%Z);
        split; auto. }
  unfold decide_consistency.
  destruct project_ids as [|p ps].
  { split.
    - intros ->. cbn [Z.eqb negb]. unfold compare_with_extension.
      cbn -[existing_groups_conditions]. branches; cbn; auto.
    - destruct (negb (consistency_enforcer_processor_enabled env =? 0)%Z);
        [discriminate|].
      unfold compare_with_extension. cbn -[existing_groups_conditions].
      branches; cbn; discriminate. }
  destruct (get_projects_query_flags env (p :: ps) replacer_state_name)
    as [[fin exclude_group_ids]|]; [|split; auto].
  destruct (negb fin && negb (bool_decide (exclude_group_ids = []))).
  2:{ split.
      - intros ->. cbn [Z.eqb negb]. unfold compare_with_extension.
        cbn -[existing_groups_conditions]. branches; cbn; auto.
      - destruct (negb (consistency_enforcer_processor_enabled env =? 0)%Z);
          [discriminate|].
        unfold compare_with_extension. cbn -[existing_groups_conditions].
        branches; cbn; discriminate. }
  destruct (max_group_ids_exclude env <? Z.of_nat (length exclude_group_ids))%Z.
  - split.
    + intros ->. cbn [Z.eqb negb]. unfold compare_with_extension.
      cbn -[existing_groups_conditions]. branches; cbn; auto.
    + destruct (negb (consistency_enforcer_processor_enabled env =? 0)%Z);
        [discriminate|].
      unfold compare_with_extension. cbn -[existing_groups_conditions].
      branches; cbn; discriminate.
  - split.
    + intros ->. cbn [Z.eqb negb]. unfold compare_with_extension.
      cbn -[existing_groups_conditions List.map not_in_condition].
      branches; cbn -[List.map not_in_condition]; auto.
    + destruct (negb (consistency_enforcer_processor_enabled env =? 0)%Z);
        [discriminate|].
      unfold compare_with_extension.
      cbn -[existing_groups_conditions List.map not_in_condition].
      branches; cbn -[List.map not_in_condition]; discriminate.
Qed.

(** The query asks for FINAL and carries a legacy condition; the lookup
    reports three excluded groups, more than the limit of 2. *)
Lemma silent_mode_keeps_final_and_legacy_witness :
  final
    (query_after
       (process_query "notIn" example_is_condition "project_id" None
          (example_environment false 0 [7; 8; 9]%Z)
          {| ast_condition := [];
             legacy_conditions := [LList [LStr "a"; LStr "="; LInt 1]];
             final := false |}))
  = false
  /\ legacy_conditions
       (query_after
          (process_query "notIn" example_is_condition "project_id" None
             (example_environment false 0 [7; 8; 9]%Z)
             {| ast_condition := [];
                legacy_conditions := [LList [LStr "a"; LStr "="; LInt 1]];
                final := false |}))
     = [LList [LStr "a"; LStr "="; LInt 1]].
Proof.
  exact (proj1 (silent_mode_keeps_final_and_legacy "notIn"
                  example_is_condition "project_id" None
                  (example_environment false 0 [7; 8; 9]%Z)
                  {| ast_condition := [];
                     legacy_conditions := [LList [LStr "a"; LStr "="; LInt 1]];
                     final := false |}) eq_refl).
Defined.

End ReplacedGroupsMore.

(** * Properties of the request schema *)

Module RequestSpec.
Import Request.

Lemma add_items_spec (items composite composite' : list (string * Schema)) :
  add_items items composite = Return composite' ->
  composite' = composite ++ items
  /\ (NoDup (List.map fst composite) -> NoDup (List.map fst composite')).
Proof.
  revert composite. induction items as [|[name schema] items IH];
    intros composite H; simpl in H.
  - injection H as <-. rewrite List.app_nil_r. auto.
  - case_bool_decide as Hin; [discriminate H|].
    destruct (IH _ H) as [-> Hnd]. split.
    + rewrite <- List.app_assoc. reflexivity.
    + intros Hc. apply Hnd. rewrite List.map_app. simpl.
      apply NoDup_app. split; [exact Hc|]. split.
      * intros x Hx Hx'. apply list_elem_of_singleton in Hx'. subst x.
        contradiction.
      * apply NoDup_singleton.
Qed.

(** The names of the properties a schema declares. *)
Definition property_names (s : Schema) : list string :=
  match properties s with
  | Some ps => List.map fst ps
  | None => []
  end.

Definition declared_properties (s : Schema) : list (string * Schema) :=
  match properties s with
  | Some ps => ps
  | None => []
  end.

Lemma add_schema_spec (schema : Schema) (c c' : Composite) :
  add_schema schema c = Return c' ->
  type_ schema = Some "object"
  /\ additionalProperties schema = Some (JBool false)
  /\ composite_properties c'
     = composite_properties c ++ declared_properties schema
  /\ composite_required c'
     = composite_required c
       ++ match required schema with Some r => r | None => [] end
  /\ (NoDup (List.map fst (composite_properties c)) ->
      NoDup (List.map fst (composite_properties c'))).
Proof.
  unfold add_schema, declared_properties.
  destruct (type_ schema) as [t|]; [|discriminate].
  case_bool_decide as Ht; simpl; [|discriminate]. subst t.
  destruct (additionalProperties schema) as [a|]; [|discriminate].
  destruct a as [|[]| | | |]; simpl; try discriminate.
  destruct (properties schema) as [ps|]; [|discriminate].
  destruct (add_items ps (composite_properties c)) as [ps'|] eqn:Hps;
    simpl; [|discriminate].
  destruct (add_items _ (composite_definitions c)) as [ds'|]; simpl;
    [|discriminate].
  intros H. injection H as <-. simpl.
  destruct (add_items_spec _ _ _ Hps) as [-> Hnd].
  repeat split; auto.
Qed.

Lemma add_schemas_spec (schemas : list Schema) (c c' : Composite) :
  add_schemas schemas c = Return c' ->
  Forall (fun s => type_ s = Some "object"
                   /\ additionalProperties s = Some (JBool false)) schemas
  /\ composite_properties c'
     = composite_properties c
       ++ List.concat (List.map declared_properties schemas)
  /\ composite_required c'
     = composite_required c
       ++ List.concat
            (List.map (fun s => match required s with
                                | Some r => r
                                | None => []
                                end) schemas)
  /\ (NoDup (List.map fst (composite_properties c)) ->
      NoDup (List.map fst (composite_properties c'))).
Proof.
  revert c. induction schemas as [|s schemas IH]; intros c H; simpl in H.
  - injection H as <-. simpl. rewrite !List.app_nil_r. auto.
  - destruct (add_schema s c) as [c1|] eqn:Hs; simpl in H; [|discriminate H].
    destruct (add_schema_spec _ _ _ Hs) as (Ht & Ha & Hp & Hr & Hnd).
    destruct (IH _ H) as (Hall & Hp' & Hr' & Hnd').
    repeat split.
    + constructor; auto.
    + rewrite Hp', Hp. simpl. rewrite List.app_assoc. reflexivity.
    + rewrite Hr', Hr. simpl. rewrite List.app_assoc. reflexivity.
    + auto.
Qed.

(** X16 - What a constructed RequestSchema guarantees: when the constructor
    returns, the query schema and every extension schema is an object that
    allows no additional property; the properties of the composite schema are
    those of the query schema followed by those of the extensions, in order;
    no property name is declared twice; and a name is required by the
    composite schema exactly when one of the schemas requires it. *)
Theorem composite_schema_properties (query_schema : Schema)
  (extensions_schemas : list (string * Schema)) (self : RequestSchema) :
  RequestSchema_init query_schema extensions_schemas = Return self ->
  Forall (fun s => type_ s = Some "object"
                   /\ additionalProperties s = Some (JBool false))
    (query_schema :: List.map snd extensions_schemas)
  /\ properties (composite_schema self)
     = Some (List.concat
               (List.map declared_properties
                  (query_schema :: List.map snd extensions_schemas)))
  /\ NoDup (List.concat
              (List.map property_names
                 (query_schema :: List.map snd extensions_schemas)))
  /\ (forall name,
        (exists r, required (composite_schema self) = Some r /\ name ∈ r)
        <-> exists s r, s ∈ query_schema :: List.map snd extensions_schemas
                        /\ required s = Some r /\ name ∈ r).
Proof.
  unfold RequestSchema_init. intros H.
  destruct (add_schemas _ _) as [c|] eqn:Hc; simpl in H; [|discriminate H].
  injection H as <-. cbn [composite_schema properties required].
  destruct (add_schemas_spec _ _ _ Hc) as (Hall & Hp & Hr & Hnd).
  cbn [composite_properties composite_required app] in Hp, Hr, Hnd.
  split; [exact Hall|]. split; [rewrite Hp; reflexivity|].
  split.
  - specialize (Hnd (NoDup_nil_2)). rewrite Hp in Hnd.
    revert Hnd.
    generalize (query_schema :: List.map snd extensions_schemas).
    intros l. rewrite List.concat_map, List.map_map.
    assert (E : List.map (fun s => List.map fst (declared_properties s)) l
                = List.map property_names l).
    { apply List.map_ext. intros s. unfold property_names, declared_properties.
      destruct (properties s); reflexivity. }
    rewrite E. auto.
  - intros name. rewrite Hr.
    generalize (query_schema :: List.map snd extensions_schemas).
    intros l. split.
    + intros (r & E & Hin). injection E as <-.
      rewrite elem_of_remove_dups, list_elem_of_In in Hin.
      apply in_concat in Hin as (x & Hx & Hin).
      apply in_map_iff in Hx as (s & <- & Hs).
      destruct (required s) as [r|] eqn:Hreq; [|destruct Hin].
      exists s, r. repeat split; auto; apply list_elem_of_In; auto.
    + intros (s & r & Hs & Hreq & Hin). eexists. split; [reflexivity|].
      rewrite elem_of_remove_dups, list_elem_of_In.
      apply in_concat. exists r. split; [|apply list_elem_of_In; exact Hin].
      apply in_map_iff. exists s. rewrite Hreq. split; [reflexivity|].
      apply list_elem_of_In. exact Hs.
Qed.

(** The schema of a query with two properties and one extension. *)
Definition string_schema : Schema :=
  MkSchema (Some "string") None None None None None.

Definition object_schema (req : list string) (ps : list (string * Schema))
  : Schema :=
  MkSchema (Some "object") (Some (JBool false)) (Some req) (Some ps) None None.

Definition example_query_schema : Schema :=
  object_schema ["selected_columns"]
    [("selected_columns", MkSchema (Some "array") None None None None None);
     ("orderby", string_schema)].

Definition example_extensions : list (string * Schema) :=
  [("project", object_schema ["project"] [("project", string_schema)])].

Lemma composite_schema_properties_witness :
  exists self,
    RequestSchema_init example_query_schema example_extensions = Return self
    /\ NoDup (List.concat
                (List.map property_names
                   (example_query_schema
                      :: List.map snd example_extensions))).
Proof.
  eexists. split; [reflexivity|].
  refine (proj1 (proj2 (proj2
    (composite_schema_properties example_query_schema example_extensions _
       eq_refl)))).
Defined.

(** A name declared at two places of a list of schemas is repeated in the
    names that the schemas declare. *)
Lemma declared_twice_is_repeated (name : string) (l : list Schema)
  (i j : nat) (si sj : Schema) :
  i <> j -> l !! i = Some si -> l !! j = Some sj ->
  name ∈ property_names si -> name ∈ property_names sj ->
  ~ NoDup (List.concat (List.map property_names l)).
Proof.
  assert (Hlt : forall (l : list Schema) i j si sj,
            i < j -> l !! i = Some si -> l !! j = Some sj ->
            name ∈ property_names si -> name ∈ property_names sj ->
            ~ NoDup (List.concat (List.map property_names l))).
  { clear. induction l as [|s l IH]; intros i j si sj Hlt Hi Hj Hsi Hsj Hnd.
    - discriminate Hi.
    - simpl in Hnd. apply NoDup_app in Hnd as (_ & Hdisj & Hnd).
      destruct j as [|j]; [lia|]. simpl in Hj.
      destruct i as [|i]; simpl in Hi.
      + injection Hi as ->. apply (Hdisj name Hsi).
        apply list_elem_of_In, in_concat. exists (property_names sj). split.
        * apply in_map_iff. exists sj. split; [reflexivity|].
          apply list_elem_of_In. eapply list_elem_of_lookup_2. exact Hj.
        * apply list_elem_of_In. exact Hsj.
      + apply (IH i j si sj); auto. lia. }
  intros Hne Hi Hj Hsi Hsj.
  destruct (decide (i < j)) as [Hij|Hij].
  - apply (Hlt l i j si sj); auto.
  - apply (Hlt l j i sj si); auto. lia.
Qed.

Lemma declared_names (l : list Schema) :
  List.map fst (List.concat (List.map declared_properties l))
  = List.concat (List.map property_names l).
Proof.
  rewrite List.concat_map, List.map_map. f_equal.
  apply List.map_ext. intros s. unfold property_names, declared_properties.
  destruct (properties s); reflexivity.
Qed.

(** A schema that has the three keys the constructor reads with
    [schema[...]]. *)
Definition has_keys (s : Schema) : Prop :=
  type_ s <> None /\ additionalProperties s <> None /\ properties s <> None.

Lemma add_items_raises (items composite : list (string * Schema)) e :
  add_items items composite = Raises e -> e = AssertionError.
Proof.
  revert composite. induction items as [|[name schema] items IH];
    intros composite H; simpl in H; [discriminate H|].
  case_bool_decide; [congruence|]. eapply IH; eauto.
Qed.

Lemma add_schemas_raises (schemas : list Schema) (c : Composite) e :
  Forall has_keys schemas ->
  add_schemas schemas c = Raises e -> e = AssertionError.
Proof.
  intros Hkeys. revert c.
  induction Hkeys as [|s schemas (Ht & Ha & Hp) _ IH]; intros c H;
    simpl in H; [discriminate H|].
  destruct (add_schema s c) as [c1|x] eqn:Hs; simpl in H;
    [eapply IH; eauto|].
  injection H as <-. unfold add_schema in Hs.
  destruct (type_ s) as [t|]; [|congruence].
  destruct (negb (bool_decide (t = "object"))); [congruence|].
  destruct (additionalProperties s) as [a|]; [|congruence].
  destruct (negb (is_False a)); [congruence|].
  destruct (properties s) as [ps|]; [|congruence].
  destruct (add_items ps (composite_properties c)) as [ps'|x'] eqn:Hps;
    simpl in Hs.
  - destruct (add_items _ (composite_definitions c)) as [ds'|x'] eqn:Hds;
      simpl in Hs; [discriminate Hs|].
    injection Hs as <-. eapply add_items_raises; eauto.
  - injection Hs as <-. eapply add_items_raises; eauto.
Qed.

(** X17 - No property can be redefined: when a property name is declared by
    two of the schemas (the query schema and the extension schemas, at two
    different places), the constructor does not return a RequestSchema: it
    raises.  The exception is AssertionError when every schema has the keys
    'type', 'additionalProperties' and 'properties'; a schema without one of
    them may raise KeyError first. *)
Theorem redefined_property_is_rejected (query_schema : Schema)
  (extensions_schemas : list (string * Schema)) (i j : nat)
  (si sj : Schema) (name : string) :
  (query_schema :: List.map snd extensions_schemas) !! i = Some si ->
  (query_schema :: List.map snd extensions_schemas) !! j = Some sj ->
  i <> j ->
  name ∈ property_names si ->
  name ∈ property_names sj ->
  (exists e, RequestSchema_init query_schema extensions_schemas = Raises e)
  /\ (Forall has_keys (query_schema :: List.map snd extensions_schemas) ->
      RequestSchema_init query_schema extensions_schemas
      = Raises AssertionError).
Proof.
  intros Hi Hj Hne Hsi Hsj. unfold RequestSchema_init.
  destruct (add_schemas _ _) as [c|e] eqn:Hc; simpl.
  - exfalso.
    destruct (add_schemas_spec _ _ _ Hc) as (_ & Hp & _ & Hnd).
    cbn [composite_properties app] in Hp, Hnd.
    specialize (Hnd (NoDup_nil_2)). rewrite Hp, declared_names in Hnd.
    revert Hnd. apply (declared_twice_is_repeated name _ i j si sj); auto.
  - split; [eauto|]. intros Hkeys.
    rewrite (add_schemas_raises _ _ _ Hkeys Hc). reflexivity.
Qed.

(** The second extension declares the property of the first one. *)
Lemma redefined_property_is_rejected_witness :
  RequestSchema_init example_query_schema
    [("project", object_schema ["project"] [("project", string_schema)]);
     ("timeseries", object_schema [] [("granularity", string_schema);
                                      ("project", string_schema)])]
  = Raises AssertionError.
Proof.
  refine (proj2 (redefined_property_is_rejected example_query_schema
                   [("project",
                     object_schema ["project"] [("project", string_schema)]);
                    ("timeseries",
                     object_schema [] [("granularity", string_schema);
                                       ("project", string_schema)])]
                   1 2 _ _ "project" eq_refl eq_refl _ _ _) _).
  - discriminate.
  - simpl. apply list_elem_of_here.
  - simpl. apply list_elem_of_further, list_elem_of_here.
  - repeat (apply List.Forall_cons;
            [repeat split; discriminate|]).
    apply List.Forall_nil.
Defined.

Lemma pop_keys_spec (keys : list string) (value : gmap string Json) :
  forall key,
    fst (pop_keys keys value) !! key
    = (if bool_decide (key ∈ keys) then value !! key else None)
    /\ snd (pop_keys keys value) !! key
       = (if bool_decide (key ∈ keys) then None else value !! key).
Proof.
  revert value. induction keys as [|k keys IH]; intros value key;
    cbn [pop_keys fst snd].
  - rewrite bool_decide_eq_false_2 by (intros H; inversion H).
    rewrite lookup_empty. auto.
  - destruct (value !! k) as [v|] eqn:Hk.
    + specialize (IH (delete k value) key).
      destruct (pop_keys keys (delete k value)) as [taken rest].
      simpl in *. destruct IH as [IH1 IH2].
      destruct (decide (key = k)) as [->|Hne].
      * rewrite lookup_insert_eq.
        rewrite bool_decide_eq_true_2 by apply list_elem_of_here.
        split; [congruence|]. rewrite IH2.
        case_bool_decide; [reflexivity|]. apply lookup_delete_eq.
      * rewrite lookup_insert_ne by congruence.
        rewrite IH1, IH2. rewrite lookup_delete_ne by congruence.
        assert (E : bool_decide (key ∈ k :: keys) = bool_decide (key ∈ keys)).
        { apply bool_decide_ext. rewrite elem_of_cons. tauto. }
        rewrite E. auto.
    + destruct (IH value key) as [IH1 IH2]. rewrite IH1, IH2.
      destruct (decide (key = k)) as [->|Hne].
      * rewrite (bool_decide_eq_true_2 (k ∈ k :: keys))
          by apply list_elem_of_here.
        rewrite Hk. split; case_bool_decide; reflexivity.
      * assert (E : bool_decide (key ∈ k :: keys) = bool_decide (key ∈ keys)).
        { apply bool_decide_ext. rewrite elem_of_cons. tauto. }
        rewrite E. auto.
Qed.

Lemma bool_decide_elem_of_app (key : string) (l1 l2 : list string) :
  bool_decide (key ∈ l1 ++ l2)
  = bool_decide (key ∈ l1) || bool_decide (key ∈ l2).
Proof.
  apply eq_true_iff_eq. rewrite orb_true_iff.
  rewrite !bool_decide_eq_true, elem_of_app. tauto.
Qed.

Lemma property_names_Some (s : Schema) ps :
  properties s = Some ps -> property_names s = List.map fst ps.
Proof. unfold property_names. intros ->. reflexivity. Qed.

Lemma pop_extensions_spec (schemas : list (string * Schema))
  (value : gmap string Json) (es : list (string * gmap string Json)) :
  pop_extensions schemas value = Return es ->
  List.map fst es = List.map fst schemas
  /\ forall key,
       chain_lookup (List.map snd es) key
       = if bool_decide
              (key ∈ List.concat
                       (List.map (fun s => property_names (snd s)) schemas))
         then value !! key else None.
Proof.
  revert value es. induction schemas as [|[n s] schemas IH];
    intros value es H; cbn [pop_extensions] in H.
  - injection H as <-. split; [reflexivity|]. intros key.
    cbn [List.map chain_lookup List.concat].
    rewrite bool_decide_eq_false_2 by (intros Hin; inversion Hin).
    reflexivity.
  - destruct (properties s) as [ps|] eqn:Hps; [|discriminate H].
    pose proof (pop_keys_spec (List.map fst ps) value) as Hpop.
    destruct (pop_keys (List.map fst ps) value) as [taken rest].
    cbn [fst snd] in Hpop.
    destruct (pop_extensions schemas rest) as [es'|] eqn:Hes;
      cbn [bind] in H; [|discriminate H].
    injection H as <-. destruct (IH _ _ Hes) as [Hnames Hchain].
    split; [cbn [List.map fst]; f_equal; exact Hnames|].
    intros key. cbn [List.map chain_lookup List.concat snd].
    destruct (Hpop key) as [Ht Hr].
    rewrite Ht, Hchain, Hr, (property_names_Some _ _ Hps).
    rewrite bool_decide_elem_of_app.
    destruct (bool_decide (key ∈ List.map fst ps)); cbn [orb].
    + destruct (value !! key) as [v|]; [reflexivity|].
      destruct (bool_decide _); reflexivity.
    + reflexivity.
Qed.

(** X18 - Nothing is lost and nothing moves: when [validate] returns a
    request, its body gives, for every property name declared by the query
    schema or by an extension schema, the value the validated document has
    for it (or none if it has none), and nothing for the other names; and
    the request has one mapping per extension schema, under the same names. *)
Theorem validate_round_trip
  (validate_jsonschema : gmap string Json -> Schema -> option (gmap string Json))
  (self : RequestSchema) (value validated : gmap string Json)
  (request : Request) :
  validate_jsonschema value (composite_schema self) = Some validated ->
  validate validate_jsonschema self value = Return request ->
  List.map fst (extensions request) = List.map fst (extension_schemas self)
  /\ forall key,
       body request key
       = if bool_decide
              (key ∈ List.concat
                       (List.map property_names
                          (query_schema self
                             :: List.map snd (extension_schemas self))))
         then validated !! key else None.
Proof.
  intros Hv H. unfold validate in H. rewrite Hv in H.
  destruct (properties (query_schema self)) as [ps|] eqn:Hps;
    [|discriminate H].
  pose proof (pop_keys_spec (List.map fst ps) validated) as Hpop.
  destruct (pop_keys (List.map fst ps) validated) as [q rest].
  cbn [fst snd] in Hpop.
  destruct (pop_extensions (extension_schemas self) rest) as [es|] eqn:Hes;
    cbn [bind] in H; [|discriminate H].
  injection H as <-. destruct (pop_extensions_spec _ _ _ Hes) as [Hn Hchain].
  split; [exact Hn|]. intros key. unfold body.
  cbn [query extensions chain_lookup List.map List.concat].
  destruct (Hpop key) as [Ht Hr].
  rewrite Ht, Hchain, Hr, (property_names_Some _ _ Hps), List.map_map.
  rewrite bool_decide_elem_of_app.
  destruct (bool_decide (key ∈ List.map fst ps)); cbn [orb].
  - destruct (validated !! key) as [v|]; [reflexivity|].
    destruct (bool_decide _); reflexivity.
  - reflexivity.
Qed.

(** A validator that accepts every document as it is. *)
Definition accept_all (value : gmap string Json) (schema : Schema)
  : option (gmap string Json) := Some value.

Definition example_schema : RequestSchema :=
  {| query_schema := example_query_schema;
     extension_schemas := example_extensions;
     composite_schema :=
       object_schema ["selected_columns"; "project"]
         [("selected_columns",
           MkSchema (Some "array") None None None None None);
          ("orderby", string_schema); ("project", string_schema)] |}.

Lemma validate_round_trip_witness :
  body {| query := {["orderby" := JString "time"]};
          extensions := [("project", {["project" := JNumber 1]})] |}
    "project"
  = Some (JNumber 1).
Proof.
  refine (proj2 (validate_round_trip accept_all example_schema
                   (<["project" := JNumber 1]> {["orderby" := JString "time"]})
                   (<["project" := JNumber 1]> {["orderby" := JString "time"]})
                   {| query := {["orderby" := JString "time"]};
                      extensions := [("project", {["project" := JNumber 1]})]
                   |} eq_refl _) "project").
  vm_compute. reflexivity.
Defined.

(** X19 - The template of a constructed RequestSchema is an object with
    one entry per property of the query schema and of every extension
    schema, in that order, each bound to the template of the schema of the
    property. *)
Theorem template_lists_every_property (query_schema : Schema)
  (extensions_schemas : list (string * Schema)) (self : RequestSchema) :
  RequestSchema_init query_schema extensions_schemas = Return self ->
  generate_template self
  = JObject
      (List.map (fun item => (fst item, generate_template_impl (snd item)))
         (List.concat
            (List.map declared_properties
               (query_schema :: List.map snd extensions_schemas)))).
Proof.
  unfold RequestSchema_init. intros H.
  destruct (add_schemas _ _) as [c|] eqn:Hc; simpl in H; [|discriminate H].
  injection H as <-.
  destruct (add_schemas_spec _ _ _ Hc) as (_ & Hp & _ & _).
  cbn [composite_properties app] in Hp.
  remember (List.concat
              (List.map declared_properties
                 (query_schema :: List.map snd extensions_schemas))) as l
    eqn:El.
  unfold generate_template. simpl. rewrite Hp. f_equal. clear.
  induction l as [|[p s] l IH]; simpl; [reflexivity|]. rewrite IH.
  reflexivity.
Qed.

Lemma template_lists_every_property_witness :
  exists self,
    RequestSchema_init example_query_schema example_extensions = Return self
    /\ generate_template self
       = JObject [("selected_columns", JArray []); ("orderby", JString "");
                  ("project", JString "")].
Proof.
  eexists. split; [reflexivity|].
  exact (template_lists_every_property example_query_schema
           example_extensions _ eq_refl).
Defined.

End RequestSpec.

(** * Properties of the map from storage sets to clusters *)

Module ClustersSpec.
Import Clusters.

Lemma size_list_to_set_le (l : list string) :
  size (list_to_set l : gset string) <= length l.
Proof.
  induction l as [|x l IH].
  - rewrite list_to_set_nil, size_empty. simpl. lia.
  - rewrite list_to_set_cons. simpl.
    destruct (decide (x ∈ (list_to_set l : gset string))) as [Hin|Hnin].
    + assert (E : ({[x]} ∪ list_to_set l : gset string) = list_to_set l)
        by (clear -Hin; set_solver).
      rewrite E. lia.
    + rewrite size_union by (clear -Hnin; set_solver).
      rewrite size_singleton. lia.
Qed.

(** The first assertion of the module holds only of a list without
    repetition. *)
Lemma length_size_NoDup (l : list string) :
  length l = size (list_to_set l : gset string) -> NoDup l.
Proof.
  induction l as [|x l IH]; intros Hlen.
  - constructor.
  - rewrite list_to_set_cons in Hlen. simpl in Hlen.
    pose proof (size_list_to_set_le l) as Hle.
    destruct (decide (x ∈ (list_to_set l : gset string))) as [Hin|Hnin].
    + assert (E : ({[x]} ∪ list_to_set l : gset string) = list_to_set l)
        by (clear -Hin; set_solver).
      rewrite E in Hlen. lia.
    + rewrite size_union in Hlen by (clear -Hnin; set_solver).
      rewrite size_singleton in Hlen.
      constructor.
      * intros Hx. apply Hnin. apply elem_of_list_to_set. exact Hx.
      * apply IH. lia.
Qed.

Section Registrations.

Variable StorageSetKey : gset string.

Lemma registrations_spec (CLUSTERS : list ClickhouseCluster) items :
  registrations StorageSetKey CLUSTERS = Return items ->
  forall key cluster,
    (key, cluster) ∈ items
    <-> cluster ∈ CLUSTERS /\ key ∈ storage_sets cluster.
Proof using Type.
  revert items.
  induction CLUSTERS as [|c rest IH]; intros items Hreg; simpl in Hreg.
  - injection Hreg as <-. intros key cluster. split.
    + intros Hin. inversion Hin.
    + intros [Hin _]. inversion Hin.
  - unfold get_storage_set_keys in Hreg.
    destruct (forallb _ _); [|discriminate Hreg].
    destruct (registrations StorageSetKey rest) as [l|]; [|discriminate Hreg].
    injection Hreg as <-. intros key cluster.
    rewrite elem_of_app, (IH l eq_refl), elem_of_cons. split.
    + intros [Hin|[Hin Hk]].
      * apply list_elem_of_In, in_map_iff in Hin as (k & E & Hk).
        injection E as <- <-. split; [left; reflexivity|].
        apply elem_of_elements, list_elem_of_In. exact Hk.
      * split; [right; exact Hin | exact Hk].
    + intros [[->|Hin] Hk].
      * left. apply list_elem_of_In, in_map_iff. exists key.
        split; [reflexivity|]. apply list_elem_of_In, elem_of_elements.
        exact Hk.
      * right. split; assumption.
Qed.

(** The registered storage sets are the storage sets of the clusters, in the
    order of the clusters. *)
Lemma registered_storage_sets (CLUSTERS : list ClickhouseCluster) items :
  registrations StorageSetKey CLUSTERS = Return items ->
  List.map fst items
  = List.concat (List.map (fun c => elements (storage_sets c)) CLUSTERS).
Proof using Type.
  revert items.
  induction CLUSTERS as [|c l IH]; intros items Hreg; simpl in Hreg.
  - injection Hreg as <-. reflexivity.
  - unfold get_storage_set_keys in Hreg.
    destruct (forallb _ _); [|discriminate Hreg].
    destruct (registrations StorageSetKey l) as [l'|]; [|discriminate Hreg].
    injection Hreg as <-. rewrite List.map_app, List.map_map. simpl.
    rewrite List.map_id. f_equal. apply IH. reflexivity.
Qed.

(** Only the enumeration makes the list of registrations fail. *)
Lemma registrations_raise (CLUSTERS : list ClickhouseCluster) e :
  registrations StorageSetKey CLUSTERS = Raises e -> e = ValueError.
Proof using Type.
  induction CLUSTERS as [|c l IH]; intros Hreg; simpl in Hreg;
    [discriminate Hreg|].
  unfold get_storage_set_keys in Hreg.
  destruct (forallb _ _); [|congruence].
  destruct (registrations StorageSetKey l) as [l'|e']; [discriminate Hreg|].
  injection Hreg as <-. apply IH. reflexivity.
Qed.

End Registrations.

(** A storage set of two clusters is listed twice. *)
Lemma shared_storage_set_is_repeated (key : string)
  (l : list ClickhouseCluster) (i j : nat) (c1 c2 : ClickhouseCluster) :
  i <> j -> l !! i = Some c1 -> l !! j = Some c2 ->
  key ∈ storage_sets c1 -> key ∈ storage_sets c2 ->
  ~ NoDup (List.concat (List.map (fun c => elements (storage_sets c)) l)).
Proof.
  assert (Hlt : forall (l : list ClickhouseCluster) i j c1 c2,
            i < j -> l !! i = Some c1 -> l !! j = Some c2 ->
            key ∈ storage_sets c1 -> key ∈ storage_sets c2 ->
            ~ NoDup (List.concat
                       (List.map (fun c => elements (storage_sets c)) l))).
  { clear. induction l as [|c l IH]; intros i j c1 c2 Hlt Hi Hj Hk1 Hk2 Hnd.
    - discriminate Hi.
    - simpl in Hnd. apply NoDup_app in Hnd as (_ & Hdisj & Hnd).
      destruct j as [|j]; [lia|]. simpl in Hj.
      destruct i as [|i]; simpl in Hi.
      + injection Hi as ->. apply (Hdisj key).
        * apply elem_of_elements. exact Hk1.
        * apply list_elem_of_In, in_concat.
          exists (elements (storage_sets c2)). split.
          -- apply in_map_iff. exists c2. split; [reflexivity|].
             apply list_elem_of_In. eapply list_elem_of_lookup_2. exact Hj.
          -- apply list_elem_of_In, elem_of_elements. exact Hk2.
      + apply (IH i j c1 c2); auto. lia. }
  intros Hne Hi Hj Hk1 Hk2.
  destruct (decide (i < j)) as [Hij|Hij].
  - apply (Hlt l i j c1 c2); auto.
  - apply (Hlt l j i c2 c1); auto. lia.
Qed.

(** X20 - The map from storage sets to clusters is total and exact: when
    the module loads (its two assertions pass), [get_cluster] returns, for
    every key of StorageSetKey, a cluster of CLUSTERS that registers the key,
    and that cluster is the only one: every place of CLUSTERS whose cluster
    registers the key is the same place. On a name that is not a key the
    lookup raises KeyError. *)
Theorem storage_set_map_is_total (StorageSetKey : gset string)
  (CLUSTERS : list ClickhouseCluster)
  (map : gmap string ClickhouseCluster) :
  STORAGE_SET_CLUSTER_MAP StorageSetKey CLUSTERS = Return map ->
  (forall key, key ∈ StorageSetKey ->
     exists i cluster,
       get_cluster map key = Return cluster
       /\ CLUSTERS !! i = Some cluster
       /\ key ∈ storage_sets cluster
       /\ forall j other,
            CLUSTERS !! j = Some other -> key ∈ storage_sets other -> j = i)
  /\ (forall key,
        key ∉ StorageSetKey -> get_cluster map key = Raises KeyError).
Proof.
  unfold STORAGE_SET_CLUSTER_MAP.
  destruct (registrations StorageSetKey CLUSTERS) as [items|] eqn:Hreg;
    [|discriminate].
  case_bool_decide as Hlen; simpl; [|discriminate].
  case_bool_decide as Hall; simpl; [|discriminate].
  intros Hmap. injection Hmap as <-.
  pose proof (registrations_spec _ _ _ Hreg) as Hitems.
  apply length_size_NoDup in Hlen.
  assert (Hnd : NoDup (reverse items).*1).
  { rewrite fmap_reverse, reverse_Permutation. exact Hlen. }
  assert (Hlookup : forall key cluster,
            (list_to_map (reverse items) : gmap string ClickhouseCluster)
              !! key = Some cluster
            <-> (key, cluster) ∈ items).
  { intros key cluster. rewrite <- (elem_of_list_to_map _ _ _ Hnd).
    rewrite elem_of_reverse. reflexivity. }
  split.
  - intros key Hkey. rewrite Hall in Hkey.
    apply elem_of_list_to_set, list_elem_of_fmap in Hkey
      as ([k cluster] & -> & Hin).
    simpl. pose proof (proj1 (Hitems k cluster) Hin) as [Hc Hk].
    apply list_elem_of_lookup_1 in Hc as [i Hi].
    exists i, cluster. unfold get_cluster.
    rewrite (proj2 (Hlookup k cluster) Hin).
    split; [reflexivity|]. split; [exact Hi|]. split; [exact Hk|].
    intros j other Hj Hother.
    destruct (decide (j = i)) as [E|Hne]; [exact E|].
    exfalso.
    apply (shared_storage_set_is_repeated k CLUSTERS j i other cluster);
      auto.
    rewrite <- (registered_storage_sets _ _ _ Hreg). exact Hlen.
  - intros key Hkey. unfold get_cluster.
    destruct ((list_to_map (reverse items)
               : gmap string ClickhouseCluster) !! key)
      as [cluster|] eqn:E; [|reflexivity].
    exfalso. apply Hkey. rewrite Hall.
    apply elem_of_list_to_set, list_elem_of_fmap. exists (key, cluster).
    split; [reflexivity|]. apply Hlookup. exact E.
Qed.

(** Two clusters for three storage sets. *)
Definition events_cluster : ClickhouseCluster :=
  {| host := "localhost"; port := 9000; http_port := 8123;
     storage_sets := {["events"; "transactions"]}; single_node := true;
     cluster_name := None |}.

Definition outcomes_cluster : ClickhouseCluster :=
  {| host := "outcomes"; port := 9000; http_port := 8123;
     storage_sets := {["outcomes"]}; single_node := false;
     cluster_name := Some "outcomes_cluster" |}.

Lemma storage_set_map_is_total_witness :
  exists map,
    STORAGE_SET_CLUSTER_MAP {["events"; "transactions"; "outcomes"]}
      [events_cluster; outcomes_cluster] = Return map
    /\ exists i cluster,
         get_cluster map "outcomes" = Return cluster
         /\ [events_cluster; outcomes_cluster] !! i = Some cluster
         /\ "outcomes" ∈ storage_sets cluster
         /\ forall j other,
              [events_cluster; outcomes_cluster] !! j = Some other ->
              "outcomes" ∈ storage_sets other -> j = i.
Proof.
  eexists. split; [vm_compute; reflexivity|].
  refine (proj1 (storage_set_map_is_total
                   {["events"; "transactions"; "outcomes"]}
                   [events_cluster; outcomes_cluster] _ _) "outcomes" _).
  - vm_compute. reflexivity.
  - set_solver.
Defined.

(** X21 - A storage set belongs to one cluster: when the clusters at two
    different places of CLUSTERS register the same storage set, the module
    does not load. It raises AssertionError, or ValueError when a registered
    name is not a key of StorageSetKey. *)
Theorem shared_storage_set_is_rejected (StorageSetKey : gset string)
  (CLUSTERS : list ClickhouseCluster) (i j : nat)
  (c1 c2 : ClickhouseCluster) (key : string) :
  CLUSTERS !! i = Some c1 -> CLUSTERS !! j = Some c2 -> i <> j ->
  key ∈ storage_sets c1 -> key ∈ storage_sets c2 ->
  STORAGE_SET_CLUSTER_MAP StorageSetKey CLUSTERS = Raises AssertionError
  \/ STORAGE_SET_CLUSTER_MAP StorageSetKey CLUSTERS = Raises ValueError.
Proof.
  intros Hi Hj Hne Hk1 Hk2.
  unfold STORAGE_SET_CLUSTER_MAP.
  destruct (registrations StorageSetKey CLUSTERS) as [items|e] eqn:Hreg.
  - left. rewrite bool_decide_eq_false_2; [reflexivity|].
    intros Hlen. apply length_size_NoDup in Hlen.
    rewrite (registered_storage_sets _ _ _ Hreg) in Hlen. revert Hlen.
    apply (shared_storage_set_is_repeated key CLUSTERS i j c1 c2); auto.
  - right. rewrite (registrations_raise _ _ _ Hreg). reflexivity.
Qed.

Lemma shared_storage_set_is_rejected_witness :
  STORAGE_SET_CLUSTER_MAP {["events"; "transactions"]}
    [events_cluster; events_cluster] = Raises AssertionError
  \/ STORAGE_SET_CLUSTER_MAP {["events"; "transactions"]}
       [events_cluster; events_cluster] = Raises ValueError.
Proof.
  apply (shared_storage_set_is_rejected {["events"; "transactions"]}
           [events_cluster; events_cluster] 0 1 events_cluster events_cluster
           "events").
  - reflexivity.
  - reflexivity.
  - discriminate.
  - set_solver.
  - set_solver.
Defined.

(** X22 - Every storage set is assigned: when a key of StorageSetKey is
    registered by no cluster of CLUSTERS, the module does not load. *)
Theorem unassigned_storage_set_is_rejected (StorageSetKey : gset string)
  (CLUSTERS : list ClickhouseCluster) (key : string) :
  key ∈ StorageSetKey ->
  (forall cluster, cluster ∈ CLUSTERS -> key ∉ storage_sets cluster) ->
  STORAGE_SET_CLUSTER_MAP StorageSetKey CLUSTERS = Raises AssertionError
  \/ STORAGE_SET_CLUSTER_MAP StorageSetKey CLUSTERS = Raises ValueError.
Proof.
  intros Hkey Hnone.
  unfold STORAGE_SET_CLUSTER_MAP.
  destruct (registrations StorageSetKey CLUSTERS) as [items|e] eqn:Hreg.
  - left. case_bool_decide as Hlen; simpl; [|reflexivity].
    rewrite bool_decide_eq_false_2; [reflexivity|].
    intros Hall. rewrite Hall in Hkey.
    apply elem_of_list_to_set, list_elem_of_fmap in Hkey
      as ([k cluster] & -> & Hin).
    apply (registrations_spec _ _ _ Hreg) in Hin as [Hc Hk].
    apply (Hnone cluster Hc). exact Hk.
  - right. rewrite (registrations_raise _ _ _ Hreg). reflexivity.
Qed.

Lemma unassigned_storage_set_is_rejected_witness :
  STORAGE_SET_CLUSTER_MAP {["events"; "transactions"; "outcomes"]}
    [events_cluster] = Raises AssertionError
  \/ STORAGE_SET_CLUSTER_MAP {["events"; "transactions"; "outcomes"]}
       [events_cluster] = Raises ValueError.
Proof.
  apply (unassigned_storage_set_is_rejected
           {["events"; "transactions"; "outcomes"]} [events_cluster]
           "outcomes").
  - set_solver.
  - intros cluster Hin. apply list_elem_of_singleton in Hin as ->.
    vm_compute. set_solver.
Defined.

End ClustersSpec.

